(** * AmzGen: the prompt pipeline of the product-scene generator

    A shallow embedding of the orchestration slice of the application:
    the template engine and the OpenRouter adapter
    (services/llm/openrouter.ts), the service factory and its convenience
    functions (services/llm/factory.ts), and the batch loop of the main
    component (App.tsx), followed by the properties established about them.

    Conventions.  A JavaScript string is a [string]: a sequence of code
    units, here restricted to the range 0..255.  A thrown value is a
    [Thrown]; code that may throw returns a [Completion].  Everything the
    program obtains from outside (the remote API, the clock, the random
    source, the environment variables, the background-removal routine) is
    read from a [Platform] record, and everything it does to the outside is
    appended to the trace of a [World]. *)

From Stdlib Require Import String Ascii List Bool Arith Lia DecimalString.
Import ListNotations.
Open Scope list_scope.
Open Scope string_scope.

(* ================================================================== *)
(** * JavaScript string primitives *)
(* ================================================================== *)

Module JS.

(** [s.startsWith(p)] *)
Definition startsWith (s p : string) : bool := String.prefix p s.

(** [s.includes(sub)] *)
Fixpoint includes (s sub : string) : bool :=
  if String.prefix sub s then true
  else match s with
       | EmptyString => false
       | String _ s' => includes s' sub
       end.

(** [s.slice(n)] for [0 <= n] *)
Fixpoint drop (n : nat) (s : string) : string :=
  match n, s with
  | O, _ => s
  | S _, EmptyString => EmptyString
  | S k, String _ s' => drop k s'
  end.

(** [s.slice(0, n)] for [0 <= n] *)
Fixpoint take (n : nat) (s : string) : string :=
  match n, s with
  | O, _ => EmptyString
  | S _, EmptyString => EmptyString
  | S k, String c s' => String c (take k s')
  end.

(** The text before and after the first occurrence of [sep] in [s]. *)
Fixpoint cut (sep s : string) : option (string * string) :=
  if String.prefix sep s then Some (EmptyString, drop (String.length sep) s)
  else match s with
       | EmptyString => None
       | String c s' =>
           match cut sep s' with
           | Some (before, after) => Some (String c before, after)
           | None => None
           end
       end.

(** [split_loop] is the scan of [s.split(sep)] for a non-empty separator:
    each round cuts at the next occurrence.  A round consumes at least one
    code unit, so [length s] rounds are enough. *)
Fixpoint split_loop (rounds : nat) (sep s : string) : list string :=
  match rounds with
  | O => [s]
  | S r =>
      match cut sep s with
      | Some (before, after) => before :: split_loop r sep after
      | None => [s]
      end
  end.

Fixpoint chars (s : string) : list string :=
  match s with
  | EmptyString => []
  | String c s' => String c EmptyString :: chars s'
  end.

(** [s.split(sep)]; with the empty separator the code units are listed. *)
Definition split (sep s : string) : list string :=
  match sep with
  | EmptyString => chars s
  | _ => split_loop (String.length s) sep s
  end.

(** [l.join(glue)] *)
Fixpoint join (glue : string) (l : list string) : string :=
  match l with
  | [] => EmptyString
  | [p] => p
  | p :: rest => p ++ glue ++ join glue rest
  end.

(** ** Values that may be [undefined] *)

(** [!!v] for a value that is a string or [undefined]. *)
Definition truthy (v : option string) : bool :=
  match v with
  | Some s => negb (s =? "")
  | None => false
  end.

(** [a || b] on such values. *)
Definition or (a b : option string) : option string :=
  if truthy a then a else b.

(** [a || b] when [b] is a string. *)
Definition or_else (a : option string) (b : string) : string :=
  match a with
  | Some s => if s =? "" then b else s
  | None => b
  end.

(** ** Code units *)

Definition dquote : string := String (ascii_of_nat 34) "".
Definition LF : string := String (ascii_of_nat 10) "".

(** The line terminators, which [.] does not match. *)
Definition isLineTerminator (c : ascii) : bool :=
  let n := nat_of_ascii c in ((n =? 10) || (n =? 13))%nat.

(** The class [\s], and what [trim] removes. *)
Definition isWhiteSpace (c : ascii) : bool :=
  let n := nat_of_ascii c in
  ((n =? 9) || (n =? 10) || (n =? 11) || (n =? 12) || (n =? 13) || (n =? 32) || (n =? 160))%nat.

(** ** More of [String.prototype] *)

Fixpoint trimStart (s : string) : string :=
  match s with
  | EmptyString => EmptyString
  | String c s' => if isWhiteSpace c then trimStart s' else s
  end.

Fixpoint trimEnd (s : string) : string :=
  match s with
  | EmptyString => EmptyString
  | String c s' =>
      match trimEnd s' with
      | EmptyString => if isWhiteSpace c then EmptyString else String c EmptyString
      | t => String c t
      end
  end.

(** [s.trim()] *)
Definition trim (s : string) : string := trimEnd (trimStart s).

(** [s.indexOf(c)] for a single code unit; [None] stands for [-1]. *)
Fixpoint indexOf (s : string) (c : ascii) : option nat :=
  match s with
  | EmptyString => None
  | String x s' =>
      if Ascii.eqb x c then Some 0
      else match indexOf s' c with
           | Some i => Some (S i)
           | None => None
           end
  end.

(** [s.lastIndexOf(c)] for a single code unit. *)
Fixpoint lastIndexOf (s : string) (c : ascii) : option nat :=
  match s with
  | EmptyString => None
  | String x s' =>
      match lastIndexOf s' c with
      | Some i => Some (S i)
      | None => if Ascii.eqb x c then Some 0 else None
      end
  end.

(** [s.substring(a, b)]: the arguments are swapped when [a > b]. *)
Definition substring (s : string) (a b : nat) : string :=
  take (Nat.max a b - Nat.min a b) (drop (Nat.min a b) s).

(** [n.toString()] for a non-negative integer. *)
Definition toString (n : nat) : string := NilEmpty.string_of_uint (Nat.to_uint n).

(** The longest prefix whose code units all satisfy [f]. *)
Fixpoint takeWhile (f : ascii -> bool) (s : string) : string :=
  match s with
  | EmptyString => EmptyString
  | String c s' => if f c then String c (takeWhile f s') else EmptyString
  end.

(** [prefix] up to the case of the letters a..z. *)
Definition lower (c : ascii) : ascii :=
  let n := nat_of_ascii c in
  if ((65 <=? n) && (n <=? 90))%nat then ascii_of_nat (n + 32) else c.


Fixpoint prefix_ci (p s : string) : bool :=
  match p, s with
  | EmptyString, _ => true
  | String _ _, EmptyString => false
  | String a p', String b s' => Ascii.eqb (lower a) (lower b) && prefix_ci p' s'
  end.

End JS.

(* ================================================================== *)
(** * The template engine (openrouter.ts, [processTemplate]) *)
(* ================================================================== *)

Module Template.

(** The marker [`{{${key}}}`]. *)
Definition marker (key : string) : string := "{{" ++ key ++ "}}".

(** One round of the loop body:
    [result = result.split(`{{${key}}}`).join(value)]. *)
Definition substitute (result : string) (entry : string * string) : string :=
  JS.join (snd entry) (JS.split (marker (fst entry)) result).

(** [processTemplate(template, variables)]; [variables] is the list
    [Object.entries(variables)], in the order the loop visits it. *)
Definition processTemplate (template : string)
    (variables : list (string * string)) : string :=
  fold_left substitute variables template.

(** ** Vocabulary for the properties of the engine *)

(** The code unit [c] occurs in [s]. *)
Fixpoint char_in (c : ascii) (s : string) : bool :=
  match s with
  | EmptyString => false
  | String x s' => Ascii.eqb c x || char_in c s'
  end.

(** A key or a value is plain when it holds no brace. *)
Definition plain (key : string) : bool :=
  negb (char_in "{" key) && negb (char_in "}" key).

(** A value is safe for [variables] when it is not empty, holds no brace
    and is no part of the marker of any key: substituting it can neither
    complete nor introduce a marker, whatever the template. *)
Definition safe_value (variables : list (string * string)) (v : string) : bool :=
  negb (v =? "") && plain v
  && forallb (fun e => negb (JS.includes (marker (fst e)) v)) variables.

Definition safe (variables : list (string * string)) : bool :=
  forallb (fun e => safe_value variables (snd e)) variables.

(** A template whose braces all belong to markers, as the sequence of
    its pieces: texts without braces and markers of keys without
    braces. *)
Inductive Piece : Type :=
  | Text (text : string)
  | Hole (key : string).

Definition render_piece (piece : Piece) : string :=
  match piece with
  | Text text => text
  | Hole key => marker key
  end.

Fixpoint render (pieces : list Piece) : string :=
  match pieces with
  | [] => EmptyString
  | piece :: rest => render_piece piece ++ render rest
  end.

Definition wellformed (pieces : list Piece) : bool :=
  forallb (fun piece =>
             match piece with
             | Text text => plain text
             | Hole key => plain key
             end) pieces.

(** The keys and the values of the map hold no brace. *)
Definition plain_map (variables : list (string * string)) : bool :=
  forallb (fun e => plain (fst e) && plain (snd e)) variables.

(** The value of the first entry for [key]. *)
Fixpoint lookup (variables : list (string * string)) (key : string) : option string :=
  match variables with
  | [] => None
  | (k, v) :: rest => if k =? key then Some v else lookup rest key
  end.

(** Every marker of a key of the map gives way to the value of the key,
    all at once. *)
Definition fill_piece (variables : list (string * string)) (piece : Piece) : Piece :=
  match piece with
  | Text text => Text text
  | Hole key =>
      match lookup variables key with
      | Some v => Text v
      | None => Hole key
      end
  end.

Definition fill (variables : list (string * string)) (pieces : list Piece) : list Piece :=
  map (fill_piece variables) pieces.

(** [key] is the key of a marker among the pieces. *)
Definition has_hole (key : string) (pieces : list Piece) : bool :=
  existsb (fun piece =>
             match piece with
             | Text _ => false
             | Hole k => k =? key
             end) pieces.

(** The three consequences the specification draws for every template and
    map: no marker of a key that occurred in the template is left in the
    result, a key whose marker does not occur in the template has no effect
    on the result, and a marker whose key is not in the map stays. *)
Definition leaves_no_marker (template : string)
    (variables : list (string * string)) : Prop :=
  forall k v, In (k, v) variables ->
    JS.includes template (marker k) = true ->
    JS.includes (processTemplate template variables) (marker k) = false.

Definition absent_keys_ignored (template : string)
    (variables : list (string * string)) : Prop :=
  forall before k v after, variables = (before ++ (k, v) :: after)%list ->
    JS.includes template (marker k) = false ->
    processTemplate template variables = processTemplate template (before ++ after)%list.

Definition unmatched_markers_kept (template : string)
    (variables : list (string * string)) : Prop :=
  forall k, (forall v, ~ In (k, v) variables) ->
    JS.includes template (marker k) = true ->
    JS.includes (processTemplate template variables) (marker k) = true.

End Template.
(* ================================================================== *)
(** * The data model (types.ts, services/llm/types.ts) *)
(* ================================================================== *)

Inductive LLMProvider : Type :=
  | GEMINI_3_PRO_IMAGE_PREVIEW   (* 'Nano Banana Pro' *)
  | GEMINI_3_PRO_PREVIEW.        (* 'Gemini 3 Pro Preview' *)

Definition LLMProvider_eqb (a b : LLMProvider) : bool :=
  match a, b with
  | GEMINI_3_PRO_IMAGE_PREVIEW, GEMINI_3_PRO_IMAGE_PREVIEW => true
  | GEMINI_3_PRO_PREVIEW, GEMINI_3_PRO_PREVIEW => true
  | _, _ => false
  end.

Module ScenarioPreset.
Record t : Type := make {
  id : string;
  name : string;
  description : string;
  quality : string;
  icon : option string;
  isRecommended : option bool
}.
End ScenarioPreset.

Module GeneratedImage.
Record t : Type := make {
  id : string;
  url : string;
  prompt : string;
  vibe : string;
  timestamp : nat
}.
End GeneratedImage.

Inductive Step : Type :=
  | IDLE | EXPANDING_PROMPT | GENERATING_IMAGE | COMPLETED | ERROR | ANALYZING_IMAGE.

Module ProcessingState.
Record t : Type := make {
  step : Step;
  message : string
}.
End ProcessingState.

Module LLMServiceConfig.
Record t : Type := make {
  apiKey : option string;
  baseUrl : option string;
  model : option string;
  expandPromptSystem : option string;
  expandPromptUserTemplate : option string;
  generationPromptTemplate : option string
}.
(** The object [{}]. *)
Definition empty : t := make None None None None None None.
End LLMServiceConfig.

Module ImageGenerationOptions.
Record t : Type := make {
  quality : option string
}.
End ImageGenerationOptions.

(* ================================================================== *)
(** * The platform: thrown values, the remote API, JSON *)
(* ================================================================== *)

(** A thrown value: an [Error] object with its message, or anything else
    ([error instanceof Error] is false). *)
Inductive Thrown : Type :=
  | Error (message : string)
  | NotAnError.

(** [error instanceof Error ? error.message : 'Unknown error'] *)
Definition messageOf (e : Thrown) : string :=
  match e with
  | Error m => m
  | NotAnError => "Unknown error"
  end.

Inductive Completion (A : Type) : Type :=
  | Return (a : A)
  | Throw (e : Thrown).
Arguments Return {A} a.
Arguments Throw {A} e.

(** What this engine says when a property of [undefined] is read. *)
Definition TypeError_reading_0 : string :=
  "Cannot read properties of undefined (reading '0')".

(** JSON values.  A string value is kept as its code units, a number as
    its literal. *)
Module JSON.
#[warnings="-register-all"] Inductive value : Type :=
  | Null
  | Bool (b : bool)
  | Number (literal : string)
  | Str (units : list nat)
  | Array (items : list value)
  | Object (members : list (list nat * value)).

Definition units (s : string) : list nat := map nat_of_ascii (list_ascii_of_string s).

(** The array of the given strings. *)
Definition strings (l : list string) : value := Array (map (fun s => Str (units s)) l).
End JSON.

(** A chat-completion request, as the program builds it. *)
Module Request.
Inductive Part : Type :=
  | text (text : string)
  | image_url (url : string).
Inductive Content : Type :=
  | plain (s : string)
  | parts (l : list Part).
Record Message : Type := message {
  role : string;
  content : Content
}.
Record t : Type := make {
  endpoint : string;
  Authorization : string;
  HTTP_Referer : string;
  X_Title : string;
  model : string;
  messages : list Message;
  temperature : option string;
  modalities : option (list string)
}.
End Request.

(** A response, read through the fields the program reads.  The body is
    taken to follow the chat-completion schema: [choices], when present, is
    an array of objects, and a [content], when present, is a text. *)
Module Response.
Record ImageUrl : Type := mkImageUrl {
  url : option string
}.
Record Image : Type := mkImage {
  image_url : option ImageUrl
}.
Record Message : Type := mkMessage {
  content : option string;
  images : option (list Image)     (* [None]: absent, or not an array *)
}.
Record Choice : Type := mkChoice {
  message : option Message
}.
Record Body : Type := mkBody {
  error_message : option string;   (* [body.error?.message] *)
  choices : option (list Choice)   (* [None]: absent, or not an array *)
}.
Record t : Type := make {
  ok : bool;
  statusText : string;
  json : Completion Body           (* [await response.json()] *)
}.
End Response.

(** [await fetch(...)]: a response, or a rejection. *)
Definition FetchOutcome : Type := Completion Response.t.

(** A [File] chosen by the user. *)
Definition File : Type := string.

(** Everything the program reads from outside.  The outcome of a request
    may depend on how many requests went out before it. *)
Record Platform : Type := {
  VITE_OPENROUTER_API_KEY : option string;          (* import.meta.env *)
  process_env : option (option string);             (* process.env.OPENROUTER_API_KEY;
                                                       [None]: no [process] *)
  location_href : string;                           (* window.location.href *)
  remote : nat -> Request.t -> FetchOutcome;
  JSON_parse : string -> Completion JSON.value;
  Date_now : nat -> nat;                            (* the n-th reading of the clock *)
  Math_random : nat -> string;                      (* the n-th [Math.random().toString()] *)
  removeWhiteBackground : File -> Completion string
}.

(* ================================================================== *)
(** * The state of the page *)
(* ================================================================== *)

(** An [OpenRouterService] object; [oid] tells objects apart. *)
Module Service.
Record t : Type := make {
  oid : nat;
  config : LLMServiceConfig.t;
  provider : LLMProvider
}.
End Service.

(** The calls the batch loop awaits: the background removal and the two
    convenience functions, with what each was given. *)
Inductive Call : Type :=
  | CallRemoveWhiteBackground (file : File)
  | CallExpandPrompt (basePrompt : string) (provider : LLMProvider) (customContext : string)
  | CallGenerateProductScene (imageBase64 prompt : string) (provider : LLMProvider)
      (options : option ImageGenerationOptions.t).

(** A call that has settled: the step on screen when it was made, how
    many calls of the page were still pending then, and how it ended. *)
Record CallRecord : Type := {
  shown : Step;
  beside : nat;
  call : Call;
  outcome : Completion string
}.

(** The React state of [App] that the generator reads and writes. *)
Module React.
Record t : Type := make {
  selectedFile : option File;
  previewUrl : option string;
  removeBg : bool;
  presets : list ScenarioPreset.t;
  aiRecommendations : list ScenarioPreset.t;
  selectedPresetIds : list string;
  customContext : string;
  processingState : ProcessingState.t;
  generatedImages : list GeneratedImage.t
}.
End React.

(** The statics of [LLMServiceFactory]. *)
Module FactoryState.
Record t : Type := make {
  instances : list (LLMProvider * Service.t);   (* the Map, in insertion order *)
  config : LLMServiceConfig.t
}.
End FactoryState.

Record World : Type := mkWorld {
  react : React.t;
  factory : FactoryState.t;
  allocated : nat;                 (* objects constructed so far *)
  fetches : list Request.t;        (* requests sent, oldest first *)
  calls : list CallRecord;         (* settled calls, oldest first *)
  timers : list nat;               (* pending [setTimeout]s that reset the step *)
  clock_reads : nat;
  random_reads : nat;
  inflight : nat                   (* calls made and not yet settled *)
}.

Definition with_react (f : React.t -> React.t) (w : World) : World :=
  mkWorld (f (react w)) (factory w) (allocated w) (fetches w) (calls w)
          (timers w) (clock_reads w) (random_reads w) (inflight w).

Definition with_factory (f : FactoryState.t -> FactoryState.t) (w : World) : World :=
  mkWorld (react w) (f (factory w)) (allocated w) (fetches w) (calls w)
          (timers w) (clock_reads w) (random_reads w) (inflight w).

(* ================================================================== *)
(** * Computations: state and exceptions *)
(* ================================================================== *)

Definition M (A : Type) : Type := World -> Completion A * World.

Definition ret {A : Type} (a : A) : M A := fun w => (Return a, w).

Definition throw {A : Type} (e : Thrown) : M A := fun w => (Throw e, w).

Definition bind {A B : Type} (m : M A) (k : A -> M B) : M B :=
  fun w =>
    match m w with
    | (Return a, w') => k a w'
    | (Throw e, w') => (Throw e, w')
    end.

(** [try { body } catch (error) { handler }] *)
Definition try_catch {A : Type} (body : M A) (handler : Thrown -> M A) : M A :=
  fun w =>
    match body w with
    | (Return a, w') => (Return a, w')
    | (Throw e, w') => handler e w'
    end.

(** A value that is already there, or the exception met when reading it. *)
Definition settle {A : Type} (c : Completion A) : M A := fun w => (c, w).

Definition read {A : Type} (f : World -> A) : M A := fun w => (Return (f w), w).

Definition update (f : World -> World) : M unit := fun w => (Return tt, f w).

Declare Scope m_scope.
Delimit Scope m_scope with m.
Notation "x <- m ;; k" := (bind m (fun x => k))
  (at level 61, m at next level, right associativity) : m_scope.
Notation "m ;; k" := (bind m (fun _ => k))
  (at level 61, right associativity) : m_scope.
Open Scope m_scope.

(* ================================================================== *)
(** * The OpenRouter adapter (services/llm/openrouter.ts) *)
(* ================================================================== *)

Module OpenRouter.

Definition PROVIDER_MODEL_MAP (provider : LLMProvider) : string :=
  match provider with
  | GEMINI_3_PRO_IMAGE_PREVIEW => "google/gemini-3-pro-image-preview"
  | GEMINI_3_PRO_PREVIEW => "google/gemini-3-pro-preview"
  end.

Definition DEFAULT_SYSTEM_INSTRUCTION : string :=
  "# Role: E-Commerce Product Photography Expert

## Profile
- Description: Specialist in creating high-converting product images for online marketplaces (e.g., Amazon, Shopify).

## Mandate
1. **Platform Compliance**: Images must be high-resolution and professional, suitable for various e-commerce formats (Main Image, Lifestyle, Infographic background).
2. **Product Hero**: The product MUST be the central focus, clearly visible and occupying the majority of the frame.
3. **Context Integration**: If additional context is provided, integrate it as a supporting element that enhances the product's appeal without distraction.

## Rules
1.  **Output ONLY the final prompt text.**
2.  **Do NOT describe the product visual details** (color, shape) as it comes from the input image.
3.  **Keywords**: Commercial, High Resolution, Sharp Focus, Depth of Field, Studio Lighting, E-commerce Quality.
4.  **Composition**: Ensure natural interaction if people are involved, but keep the product as the undisputed subject.".

Definition DEFAULT_USER_TEMPLATE : string :=
  "# Task: Write a Commercial Image Gen Prompt

## Input Data
- **Target Scene**: "
  ++ JS.dquote
  ++ "{{basePrompt}}"
  ++ JS.dquote
  ++ "
- **Additional Context**: "
  ++ JS.dquote
  ++ "{{customContext}}"
  ++ JS.dquote
  ++ "

## Instructions
Based on the input, write a detailed, commercial-grade prompt.
- Ensure the scene highlights the product's value proposition.
- Emphasize lighting and texture for a premium, trustworthy look.
- Adapt the style to fit general e-commerce standards (clean, professional).".

Definition DEFAULT_GENERATION_TEMPLATE : string :=
  "Create a high-end commercial product image for e-commerce.
Reference Image: Use the provided product image as the main subject.
Scene Description: {{prompt}}.
Requirements:
- **Focus**: Sharp on the product.
- **Composition**: Product is the hero, centered and commanding attention.
- **Lighting**: Professional studio or natural commercial lighting.
Style: E-commerce Lifestyle, High Resolution, Photorealistic, Advertisement.".

(** The instruction sent with the image by [recommendScenarios]. *)
Definition RECOMMEND_PROMPT : string :=
  "Analyze the product image. Suggest 3 distinct, commercial e-commerce photography scenarios suitable for online marketplaces like Amazon.
    Focus on environments, lighting, and props that increase conversion rates.
    Scenarios should be diverse (e.g., studio, lifestyle, creative) but strictly professional.
    Do NOT use restricted terms like 'Amazon Choice' or 'Best Seller'.
    Output format: JSON array of strings.
    ONLY output the JSON array.".

(** The instruction sent by [editImage], around the user's prompt. *)
Definition EDIT_PROMPT_BEFORE : string :=
  "Perform an inpainting/edit task on the image using the provided mask.
              The white area in the mask indicates the region to modify.
              Instruction: ".

Definition EDIT_PROMPT_AFTER : string :=
  "
              Return ONLY the resulting image.".

Definition ENDPOINT : string := "https://openrouter.ai/api/v1/chat/completions".

(** The message of the error [getApiKey] throws. *)
Definition API_KEY_NOT_FOUND : string :=
  "OpenRouter API key not found. Please set VITE_OPENROUTER_API_KEY.".

(** The list [recommendScenarios] falls back to. *)
Definition FALLBACK_SCENARIOS : list string :=
  [ "A clean studio setting with soft lighting.";
    "A lifestyle setting with natural sunlight.";
    "A professional commercial background." ].

(** ** The patterns *)

(** [s.replace(/^data:image\/(png|jpeg|jpg|webp);base64,/, '')] *)
Definition stripDataUrlPrefix (s : string) : string :=
  match find (fun ext => String.prefix ("data:image/" ++ ext ++ ";base64,") s)
             ["png"; "jpeg"; "jpg"; "webp"] with
  | Some ext => JS.drop (String.length ("data:image/" ++ ext ++ ";base64,")) s
  | None => s
  end.

(** [(.*?)\)] at the start of [s]: the captured text. *)
Fixpoint untilParen (s : string) : option string :=
  match s with
  | EmptyString => None
  | String c s' =>
      if Ascii.eqb c ")" then Some EmptyString
      else if JS.isLineTerminator c then None
      else match untilParen s' with
           | Some g => Some (String c g)
           | None => None
           end
  end.

(** [.*?\]\((.*?)\)] at the start of [s]: the lazy [.*?] gives way one code
    unit at a time until the rest matches. *)
Fixpoint afterBang (s : string) : option string :=
  match (if String.prefix "](" s then untilParen (JS.drop 2 s) else None) with
  | Some g => Some g
  | None =>
      match s with
      | EmptyString => None
      | String c s' => if JS.isLineTerminator c then None else afterBang s'
      end
  end.

(** [s.match(/\!\[.*?\]\((.*?)\)/)]: group 1 of the first match. *)
Fixpoint matchMarkdownImage (s : string) : option string :=
  match (if String.prefix "![" s then afterBang (JS.drop 2 s) else None) with
  | Some g => Some g
  | None =>
      match s with
      | EmptyString => None
      | String _ s' => matchMarkdownImage s'
      end
  end.

(** The class [[^\s)]]. *)
Definition urlChar (c : ascii) : bool :=
  negb (JS.isWhiteSpace c) && negb (Ascii.eqb c ")").

(** [:\/\/[^\s)]+] at the start of [r]: the matched text. *)
Definition urlBody (r : string) : option string :=
  if String.prefix "://" r then
    match JS.takeWhile urlChar (JS.drop 3 r) with
    | EmptyString => None
    | run => Some ("://" ++ run)
    end
  else None.

(** [https?:\/\/[^\s)]+], letters in either case, at the start of [s]. *)
Definition urlAt (s : string) : option string :=
  if JS.prefix_ci "http" s then
    let r := JS.drop 4 s in
    match (if JS.prefix_ci "s" r then urlBody (JS.drop 1 r) else None) with
    | Some b => Some (JS.take 5 s ++ b)
    | None =>
        match urlBody r with
        | Some b => Some (JS.take 4 s ++ b)
        | None => None
        end
    end
  else None.

(** [s.match(/(https?:\/\/[^\s)]+)/i)]: group 1 of the first match. *)
Fixpoint matchUrl (s : string) : option string :=
  match urlAt s with
  | Some u => Some u
  | None =>
      match s with
      | EmptyString => None
      | String _ s' => matchUrl s'
      end
  end.

(** The length of a match of [/```json\n?|\n?```/] at the start of [s]. *)
Definition fenceAt (s : string) : option nat :=
  if String.prefix ("```json" ++ JS.LF) s then Some 8
  else if String.prefix "```json" s then Some 7
  else if String.prefix (JS.LF ++ "```") s then Some 4
  else if String.prefix "```" s then Some 3
  else None.

Fixpoint stripFences_loop (rounds : nat) (s : string) : string :=
  match rounds with
  | O => s
  | S r =>
      match fenceAt s with
      | Some n => stripFences_loop r (JS.drop n s)
      | None =>
          match s with
          | EmptyString => EmptyString
          | String c s' => String c (stripFences_loop r s')
          end
      end
  end.

(** [s.replace(/```json\n?|\n?```/g, '')]; a round consumes at least one
    code unit. *)
Definition stripFences (s : string) : string :=
  stripFences_loop (String.length s) s.

(** ** The scan of a response for an image *)

(** [choice.message?.content] *)
Definition contentOf (choice : Response.Choice) : option string :=
  match Response.message choice with
  | Some m => Response.content m
  | None => None
  end.

(** Step 1 of the loop body: [message.images[0].image_url?.url], when
    [message.images] is a non-empty array and that url is truthy. *)
Definition attachment (choice : Response.Choice) : option string :=
  match Response.message choice with
  | Some m =>
      match Response.images m with
      | Some (firstImg :: _) =>
          match Response.image_url firstImg with
          | Some u => if JS.truthy (Response.url u) then Response.url u else None
          | None => None
          end
      | _ => None
      end
  | None => None
  end.

(** The rest of the loop body, for a truthy [content]. *)
Definition fromContent (content : string) : option string :=
  let urlMatch :=
    match matchMarkdownImage content with
    | Some g => Some g
    | None => matchUrl content
    end in
  match urlMatch with
  | Some g =>
      if JS.includes g "http" then Some g
      else if JS.startsWith content "data:image" then Some content else None
  | None =>
      if JS.startsWith content "data:image" then Some content else None
  end.

(** One round of [for (const choice of data.choices)]: the value given to
    [finalContent] before [break], if the round breaks. *)
Definition scanChoice (choice : Response.Choice) : option string :=
  match attachment choice with
  | Some u => Some u
  | None =>
      match contentOf choice with
      | Some content => if content =? "" then None else fromContent content
      | None => None
      end
  end.

(** The loop: the first round that breaks decides. *)
Fixpoint scanChoices (choices : list Response.Choice) : option string :=
  match choices with
  | [] => None
  | choice :: rest =>
      match scanChoice choice with
      | Some found => Some found
      | None => scanChoices rest
      end
  end.

(** [finalContent] after the scan of [data]. *)
Definition extractImage (data : Response.Body) : option string :=
  match Response.choices data with
  | Some choices => scanChoices choices
  | None => None
  end.

(** [data.choices?.[0]?.message?.content] *)
Definition firstContent (data : Response.Body) : option string :=
  match Response.choices data with
  | Some (choice :: _) => contentOf choice
  | _ => None
  end.

(** [data.choices[0]?.message?.content]: reading [0] of [undefined] throws. *)
Definition firstContentStrict (data : Response.Body) : M (option string) :=
  match Response.choices data with
  | Some (choice :: _) => ret (contentOf choice)
  | Some [] => ret None
  | None => throw (Error TypeError_reading_0)
  end.

(** ** The operations *)

Section Operations.

Variable P : Platform.

(** [await fetch(ENDPOINT, ...)]: the request goes out, and the platform
    answers. *)
Definition fetch (request : Request.t) : M Response.t :=
  fun w =>
    (remote P (List.length (fetches w)) request,
     mkWorld (react w) (factory w) (allocated w) (fetches w ++ [request])%list
             (calls w) (timers w) (clock_reads w) (random_reads w) (inflight w)).

(** [if (!response.ok) { const errorData = await response.json(); throw ... }] *)
Definition checkOk (response : Response.t) : M unit :=
  if Response.ok response then ret tt
  else
    errorData <- settle (Response.json response) ;;
    throw (Error ("OpenRouter API error: " ++
                  JS.or_else (Response.error_message errorData)
                             (Response.statusText response))).

(** The value of [apiKey] in [isAvailable] and [getApiKey]. *)
Definition resolveApiKey (this : Service.t) : option string :=
  JS.or (JS.or (LLMServiceConfig.apiKey (Service.config this))
               (VITE_OPENROUTER_API_KEY P))
        (match process_env P with
         | Some v => v
         | None => None
         end).

Definition getProvider (this : Service.t) : LLMProvider := Service.provider this.

Definition isAvailable (this : Service.t) : bool := JS.truthy (resolveApiKey this).

Definition getApiKey (this : Service.t) : M string :=
  match resolveApiKey this with
  | Some apiKey => if apiKey =? "" then throw (Error API_KEY_NOT_FOUND) else ret apiKey
  | None => throw (Error API_KEY_NOT_FOUND)
  end.

Definition request (apiKey modelId : string) (messages : list Request.Message)
    (temperature : option string) (modalities : option (list string)) : Request.t :=
  Request.make ENDPOINT ("Bearer " ++ apiKey) (location_href P) "AmzGen"
               modelId messages temperature modalities.

Definition expandPrompt (this : Service.t) (basePrompt customContext : string) : M string :=
  apiKey <- getApiKey this ;;
  let modelId := PROVIDER_MODEL_MAP (Service.provider this) in
  let systemInstruction :=
    JS.or_else (LLMServiceConfig.expandPromptSystem (Service.config this))
               DEFAULT_SYSTEM_INSTRUCTION in
  let userTemplate :=
    JS.or_else (LLMServiceConfig.expandPromptUserTemplate (Service.config this))
               DEFAULT_USER_TEMPLATE in
  let userPrompt :=
    Template.processTemplate userTemplate
      [("basePrompt", basePrompt); ("customContext", customContext)] in
  try_catch
    (response <- fetch (request apiKey modelId
                          [ Request.message "system" (Request.plain systemInstruction);
                            Request.message "user" (Request.plain userPrompt) ]
                          (Some "0.7") None) ;;
     checkOk response ;;
     data <- settle (Response.json response) ;;
     content <- firstContentStrict data ;;
     ret (JS.or_else content
            ("A professional product shot in a " ++ basePrompt ++ " setting.")))
    (fun error => throw (Error ("Failed to expand prompt: " ++ messageOf error))).

Definition generateImage (this : Service.t) (imageBase64 prompt : string)
    (options : option ImageGenerationOptions.t) : M string :=
  apiKey <- getApiKey this ;;
  let modelId := PROVIDER_MODEL_MAP (Service.provider this) in
  let cleanBase64 := stripDataUrlPrefix imageBase64 in
  let generationTemplate :=
    JS.or_else (LLMServiceConfig.generationPromptTemplate (Service.config this))
               DEFAULT_GENERATION_TEMPLATE in
  let filled := Template.processTemplate generationTemplate [("prompt", prompt)] in
  let quality :=
    match options with
    | Some o => ImageGenerationOptions.quality o
    | None => None
    end in
  let fullPrompt :=
    match quality with
    | Some q => if q =? "" then filled else filled ++ JS.LF ++ "Style/Quality: " ++ q
    | None => filled
    end in
  try_catch
    (response <- fetch (request apiKey modelId
                          [ Request.message "user"
                              (Request.parts
                                 [ Request.text fullPrompt;
                                   Request.image_url ("data:image/png;base64," ++ cleanBase64) ]) ]
                          None
                          (match Service.provider this with
                           | GEMINI_3_PRO_IMAGE_PREVIEW => Some ["image"; "text"]
                           | GEMINI_3_PRO_PREVIEW => None
                           end)) ;;
     checkOk response ;;
     data <- settle (Response.json response) ;;
     match extractImage data with
     | Some finalContent => ret finalContent
     | None =>
         if JS.truthy (firstContent data)
         then throw (Error "The selected model returned text instead of an image.")
         else throw (Error "No valid image content returned from OpenRouter API (checked all choices).")
     end)
    (fun error => throw (Error ("Failed to generate image: " ++ messageOf error))).

Definition recommendScenarios (this : Service.t) (imageBase64 : string) : M JSON.value :=
  apiKey <- getApiKey this ;;
  let modelId := "google/gemini-3-pro-preview" in
  let cleanBase64 := stripDataUrlPrefix imageBase64 in
  try_catch
    (response <- fetch (request apiKey modelId
                          [ Request.message "user"
                              (Request.parts
                                 [ Request.text RECOMMEND_PROMPT;
                                   Request.image_url ("data:image/png;base64," ++ cleanBase64) ]) ]
                          None None) ;;
     checkOk response ;;
     data <- settle (Response.json response) ;;
     first <- firstContentStrict data ;;
     let content := JS.or_else first "[]" in
     let jsonString := JS.trim (stripFences content) in
     match JS.indexOf jsonString "[", JS.lastIndexOf jsonString "]" with
     | Some start, Some end_ =>
         settle (JSON_parse P (JS.substring jsonString start (end_ + 1)))
     | _, _ => ret (JSON.strings [])
     end)
    (fun _ => ret (JSON.strings FALLBACK_SCENARIOS)).

Definition editImage (this : Service.t) (imageBase64 maskBase64 prompt : string) : M string :=
  apiKey <- getApiKey this ;;
  let modelId := "google/gemini-3-pro-image-preview" in
  let cleanImageBase64 := stripDataUrlPrefix imageBase64 in
  let cleanMaskBase64 := stripDataUrlPrefix maskBase64 in
  try_catch
    (response <- fetch (request apiKey modelId
                          [ Request.message "user"
                              (Request.parts
                                 [ Request.text (EDIT_PROMPT_BEFORE ++ prompt ++ EDIT_PROMPT_AFTER);
                                   Request.image_url ("data:image/png;base64," ++ cleanImageBase64);
                                   Request.image_url ("data:image/png;base64," ++ cleanMaskBase64) ]) ]
                          None
                          (if JS.includes modelId "gemini-3-pro-image-preview"
                           then Some ["image"; "text"] else None)) ;;
     checkOk response ;;
     data <- settle (Response.json response) ;;
     match extractImage data with
     | Some finalContent => ret finalContent
     | None =>
         throw (Error ("No image returned for edit request. The model might have output text instead: " ++
                       JS.or_else (option_map (fun c => JS.substring c 0 100) (firstContent data))
                                  "Empty response"))
     end)
    (fun error => throw (Error ("Failed to edit image: " ++ messageOf error))).

End Operations.

End OpenRouter.

(* ================================================================== *)
(** * The service factory (services/llm/factory.ts) *)
(* ================================================================== *)

Module LLMServiceFactory.

(** The operations of [Map<LLMProvider, ILLMService>] the factory uses. *)
Definition has (instances : list (LLMProvider * Service.t)) (provider : LLMProvider) : bool :=
  existsb (fun e => LLMProvider_eqb (fst e) provider) instances.

Definition get (instances : list (LLMProvider * Service.t)) (provider : LLMProvider)
    : option Service.t :=
  option_map snd (find (fun e => LLMProvider_eqb (fst e) provider) instances).

Fixpoint set (instances : list (LLMProvider * Service.t)) (provider : LLMProvider)
    (service : Service.t) : list (LLMProvider * Service.t) :=
  match instances with
  | [] => [(provider, service)]
  | e :: rest =>
      if LLMProvider_eqb (fst e) provider then (provider, service) :: rest
      else e :: set rest provider service
  end.

(** [this.config = config; this.instances.clear()] *)
Definition registerConfig (config : LLMServiceConfig.t) : M unit :=
  update (with_factory (fun _ => FactoryState.make [] config)).

(** [new OpenRouterService(config, provider)] *)
Definition construct (config : LLMServiceConfig.t) (provider : LLMProvider) : M Service.t :=
  fun w =>
    (Return (Service.make (allocated w) config provider),
     mkWorld (react w) (factory w) (S (allocated w)) (fetches w) (calls w)
             (timers w) (clock_reads w) (random_reads w) (inflight w)).

Definition getService (provider : LLMProvider) : M Service.t :=
  this <- read factory ;;
  match get (FactoryState.instances this) provider with
  | Some service => ret service        (* [has(provider)]: [get(provider)!] *)
  | None =>
      service <- construct (FactoryState.config this) provider ;;
      update (with_factory (fun f =>
        FactoryState.make (set (FactoryState.instances f) provider service)
                          (FactoryState.config f))) ;;
      ret service
  end.

Definition isServiceAvailable (P : Platform) (provider : LLMProvider) : M bool :=
  try_catch
    (service <- getService provider ;;
     ret (OpenRouter.isAvailable P service))
    (fun _ => ret false).

End LLMServiceFactory.

(** The convenience functions of factory.ts. *)
Module Facade.

Section WithPlatform.

Variable P : Platform.

Definition expandPrompt (basePrompt : string) (provider : LLMProvider)
    (customContext : string) : M string :=
  service <- LLMServiceFactory.getService provider ;;
  OpenRouter.expandPrompt P service basePrompt customContext.

Definition generateProductScene (imageBase64 prompt : string) (provider : LLMProvider)
    (options : option ImageGenerationOptions.t) : M string :=
  service <- LLMServiceFactory.getService provider ;;
  OpenRouter.generateImage P service imageBase64 prompt options.

Definition recommendScenarios (imageBase64 : string) (provider : LLMProvider)
    : M JSON.value :=
  service <- LLMServiceFactory.getService provider ;;
  OpenRouter.recommendScenarios P service imageBase64.

End WithPlatform.

End Facade.

(* ================================================================== *)
(** * The batch loop of the main component (App.tsx) *)
(* ================================================================== *)

Module App.

(** [const displayPresets = [...presets, ...aiRecommendations]] *)
Definition displayPresets (s : React.t) : list ScenarioPreset.t :=
  (React.presets s ++ React.aiRecommendations s)%list.

Definition setProcessingState (next : ProcessingState.t) : M unit :=
  update (with_react (fun s =>
    React.make (React.selectedFile s) (React.previewUrl s) (React.removeBg s)
               (React.presets s) (React.aiRecommendations s)
               (React.selectedPresetIds s) (React.customContext s)
               next (React.generatedImages s))).

(** [setGeneratedImages(prev => ...)] *)
Definition setGeneratedImages
    (f : list GeneratedImage.t -> list GeneratedImage.t) : M unit :=
  update (with_react (fun s =>
    React.make (React.selectedFile s) (React.previewUrl s) (React.removeBg s)
               (React.presets s) (React.aiRecommendations s)
               (React.selectedPresetIds s) (React.customContext s)
               (React.processingState s) (f (React.generatedImages s)))).

(** [setTimeout(() => setProcessingState({ step: 'IDLE', message: '' }), delay)] *)
Definition setTimeout (delay : nat) : M unit :=
  update (fun w =>
    mkWorld (react w) (factory w) (allocated w) (fetches w) (calls w)
            (timers w ++ [delay])%list (clock_reads w) (random_reads w) (inflight w)).

(** The oldest pending timer fires. *)
Definition timerFires : M unit :=
  waiting <- read timers ;;
  match waiting with
  | [] => ret tt
  | _ :: rest =>
      update (fun w =>
        mkWorld (react w) (factory w) (allocated w) (fetches w) (calls w)
                rest (clock_reads w) (random_reads w) (inflight w)) ;;
      setProcessingState (ProcessingState.make IDLE "")
  end.

(** The step is none of IDLE, COMPLETED and ERROR. *)
Definition busy (step : Step) : bool :=
  match step with
  | IDLE | COMPLETED | ERROR => false
  | EXPANDING_PROMPT | GENERATING_IMAGE | ANALYZING_IMAGE => true
  end.

Definition COMPLETED_MESSAGE : string := "All scenarios generated successfully!".

Definition ERROR_MESSAGE : string :=
  "Something went wrong. Please check your API key and try again.".

(** [`[${completed}/${total}] Designing "${name}" scene...`] *)
Definition designing (completed total : nat) (name : string) : string :=
  "[" ++ JS.toString completed ++ "/" ++ JS.toString total ++ "] Designing "
      ++ JS.dquote ++ name ++ JS.dquote ++ " scene...".

(** [`[${completed}/${total}] Rendering "${name}"...`] *)
Definition rendering (completed total : nat) (name : string) : string :=
  "[" ++ JS.toString completed ++ "/" ++ JS.toString total ++ "] Rendering "
      ++ JS.dquote ++ name ++ JS.dquote ++ "...".

(** One more call is pending. *)
Definition issued (w : World) : World :=
  mkWorld (react w) (factory w) (allocated w) (fetches w) (calls w)
          (timers w) (clock_reads w) (random_reads w) (S (inflight w)).

(** A pending call has settled. *)
Definition settled (record : CallRecord) (w : World) : World :=
  mkWorld (react w) (factory w) (allocated w) (fetches w)
          (calls w ++ [record])%list
          (timers w) (clock_reads w) (random_reads w) (Nat.pred (inflight w)).

(** Nothing else happens while a call is pending. *)
Definition quietly : nat -> M unit := fun _ => ret tt.

Section WithPlatform.

Variable P : Platform.

(** What else the page does while an awaited call is pending: the
    handlers of the events that arrive before the call settles, given the
    number of calls that had settled when the call was made. *)
Variable meanwhile : nat -> M unit.

Definition Date_now : M nat :=
  fun w =>
    (Return (Date_now P (clock_reads w)),
     mkWorld (react w) (factory w) (allocated w) (fetches w) (calls w)
             (timers w) (S (clock_reads w)) (random_reads w) (inflight w)).

(** [Math.random().toString()] *)
Definition Math_random_toString : M string :=
  fun w =>
    (Return (Math_random P (random_reads w)),
     mkWorld (react w) (factory w) (allocated w) (fetches w) (calls w)
             (timers w) (clock_reads w) (S (random_reads w)) (inflight w)).

(** [await] of one of the calls of the loop.  The call is made at once;
    while it is pending the page handles what else arrives; once the call
    has settled it is entered in [calls] and the function goes on.  What
    a handler run meanwhile throws does not reach the function. *)
Definition await (c : Call) (m : M string) : M string :=
  fun w =>
    let shown := ProcessingState.step (React.processingState (react w)) in
    let beside := inflight w in
    match m w with
    | (r, made) =>
        match meanwhile (List.length (calls made)) (issued made) with
        | (_, later) => (r, settled (Build_CallRecord shown beside c r) later)
        end
    end.

(** The body of the loop for a preset that was found: steps 2 to 4. *)
Definition generateOne (captured : React.t) (imageToProcess : string)
    (completed total : nat) (selectedPreset : ScenarioPreset.t) : M unit :=
  let currentPresetName := ScenarioPreset.name selectedPreset in
  setProcessingState
    (ProcessingState.make EXPANDING_PROMPT (designing completed total currentPresetName)) ;;
  let basePrompt := ScenarioPreset.description selectedPreset in
  expandedPrompt <-
    await (CallExpandPrompt basePrompt GEMINI_3_PRO_PREVIEW (React.customContext captured))
      (Facade.expandPrompt P basePrompt GEMINI_3_PRO_PREVIEW (React.customContext captured)) ;;
  setProcessingState
    (ProcessingState.make GENERATING_IMAGE (rendering completed total currentPresetName)) ;;
  let options :=
    Some (ImageGenerationOptions.make (Some (ScenarioPreset.quality selectedPreset))) in
  generatedImageUrl <-
    await (CallGenerateProductScene imageToProcess expandedPrompt
             GEMINI_3_PRO_IMAGE_PREVIEW options)
      (Facade.generateProductScene P imageToProcess expandedPrompt
         GEMINI_3_PRO_IMAGE_PREVIEW options) ;;
  created <- Date_now ;;
  random <- Math_random_toString ;;
  now <- Date_now ;;
  let newImage :=
    GeneratedImage.make (JS.toString created ++ JS.substring random 2 8)
                        generatedImageUrl expandedPrompt currentPresetName now in
  setGeneratedImages (fun prev => newImage :: prev).

(** [for (const presetId of selectedPresetIds) { ... }] *)
Fixpoint generateEach (captured : React.t) (imageToProcess : string) (total : nat)
    (presetIds : list string) (completed : nat) : M unit :=
  match presetIds with
  | [] => ret tt
  | presetId :: rest =>
      match find (fun p => ScenarioPreset.id p =? presetId) (displayPresets captured) with
      | None => generateEach captured imageToProcess total rest completed
      | Some selectedPreset =>
          generateOne captured imageToProcess (completed + 1) total selectedPreset ;;
          generateEach captured imageToProcess total rest (completed + 1)
      end
  end.

(** [handleGenerate], run from the render whose state is read first. *)
Definition handleGenerate : M unit :=
  captured <- read react ;;
  match React.selectedFile captured, React.previewUrl captured with
  | Some selectedFile, Some previewUrl =>
      if (previewUrl =? "") || (List.length (React.selectedPresetIds captured) =? 0)%nat
      then ret tt
      else
        try_catch
          (imageToProcess <-
             (if React.removeBg captured then
                setProcessingState
                  (ProcessingState.make EXPANDING_PROMPT
                     "Removing background for better integration...") ;;
                await (CallRemoveWhiteBackground selectedFile)
                      (settle (removeWhiteBackground P selectedFile))
              else ret previewUrl) ;;
           let total := List.length (React.selectedPresetIds captured) in
           generateEach captured imageToProcess total
                        (React.selectedPresetIds captured) 0 ;;
           setProcessingState (ProcessingState.make COMPLETED COMPLETED_MESSAGE) ;;
           setTimeout 3000)
          (fun _ => setProcessingState (ProcessingState.make ERROR ERROR_MESSAGE))
  | _, _ => ret tt
  end.

(** The [disabled] attribute of the Generate button. *)
Definition generateDisabled (s : React.t) : bool :=
  negb (JS.truthy (React.previewUrl s))
  || (List.length (React.selectedPresetIds s) =? 0)%nat
  || busy (ProcessingState.step (React.processingState s)).

(** A click on the Generate button: a disabled button calls nothing. *)
Definition clickGenerate : M unit :=
  s <- read react ;;
  if generateDisabled s then ret tt else handleGenerate.

End WithPlatform.

(** ** Vocabulary for the properties of the loop *)

(** The presets a selection resolves to, in the order of the selection;
    an id that names no preset is passed over. *)
Fixpoint resolve (all : list ScenarioPreset.t) (presetIds : list string)
    : list ScenarioPreset.t :=
  match presetIds with
  | [] => []
  | presetId :: rest =>
      match find (fun p => ScenarioPreset.id p =? presetId) all with
      | Some p => p :: resolve all rest
      | None => resolve all rest
      end
  end.

(** The prompts given to the image calls of a list of settled calls. *)
Fixpoint imagePrompts (l : list CallRecord) : list string :=
  match l with
  | [] => []
  | r :: rest =>
      match call r with
      | CallGenerateProductScene _ prompt _ _ => prompt :: imagePrompts rest
      | _ => imagePrompts rest
      end
  end.

(** The base prompts given to the expand calls of a list of settled calls. *)
Fixpoint expandedBases (l : list CallRecord) : list string :=
  match l with
  | [] => []
  | r :: rest =>
      match call r with
      | CallExpandPrompt basePrompt _ _ => basePrompt :: expandedBases rest
      | _ => expandedBases rest
      end
  end.

Definition threw (r : CallRecord) : bool :=
  match outcome r with
  | Throw _ => true
  | Return _ => false
  end.

End App.

(* ================================================================== *)
(** * Vocabulary for the properties of the adapter and the factory *)
(* ================================================================== *)

(** The world after the requests [reqs] went out and nothing else
    happened. *)
Definition sends (w : World) (reqs : list Request.t) : World :=
  mkWorld (react w) (factory w) (allocated w) (fetches w ++ reqs)%list
          (calls w) (timers w) (clock_reads w) (random_reads w) (inflight w).

(** What the page does while a call is pending leaves the batch alone:
    it settles the calls it makes, and it touches neither the record of
    the calls nor the results. *)
Definition aside (meanwhile : nat -> M unit) : Prop :=
  forall n w,
    calls (snd (meanwhile n w)) = calls w /\
    inflight (snd (meanwhile n w)) = inflight w /\
    React.generatedImages (react (snd (meanwhile n w)))
      = React.generatedImages (react w).

(** A call of a batch started from [w] was made in turn: under a busy
    step, and with no call pending that was not pending in [w]. *)
Definition in_turn (w : World) (c : CallRecord) : Prop :=
  App.busy (shown c) = true /\ beside c = inflight w.

(** A fetch fails when the promise is rejected or the status is not ok. *)
Definition failed (o : FetchOutcome) : bool :=
  match o with
  | Throw _ => true
  | Return r => negb (Response.ok r)
  end.


(** Every adapter in the cache was constructed, for the provider it is
    filed under, with the configuration that is registered now. *)
Definition cache_current (w : World) : Prop :=
  forall provider service,
    In (provider, service) (FactoryState.instances (factory w)) ->
    Service.config service = FactoryState.config (factory w) /\
    Service.provider service = provider /\
    Service.oid service < allocated w.

(** A run of [getService] calls, one per provider of the list. *)
Fixpoint getServices (providers : list LLMProvider) : M unit :=
  match providers with
  | [] => ret tt
  | provider :: rest =>
      _ <- LLMServiceFactory.getService provider ;;
      getServices rest
  end.

(* ================================================================== *)
(** * A reference platform *)
(* ================================================================== *)

(** [JSON.parse], after the grammar of ECMA-404, for the examples below;
    the properties themselves hold for every platform. *)
Module JSONText.

Definition isWs (c : ascii) : bool :=
  let n := nat_of_ascii c in ((n =? 32) || (n =? 9) || (n =? 10) || (n =? 13))%nat.

Fixpoint skipWs (s : string) : string :=
  match s with
  | EmptyString => EmptyString
  | String c s' => if isWs c then skipWs s' else s
  end.

Definition isDigit (c : ascii) : bool :=
  let n := nat_of_ascii c in ((48 <=? n) && (n <=? 57))%nat.

Definition hexValue (c : ascii) : option nat :=
  let n := nat_of_ascii c in
  if ((48 <=? n) && (n <=? 57))%nat then Some (n - 48)
  else if ((65 <=? n) && (n <=? 70))%nat then Some (n - 55)
  else if ((97 <=? n) && (n <=? 102))%nat then Some (n - 87)
  else None.

Definition hex4 (a b c d : ascii) : option nat :=
  match hexValue a, hexValue b, hexValue c, hexValue d with
  | Some x, Some y, Some z, Some t => Some (((x * 16 + y) * 16 + z) * 16 + t)
  | _, _, _, _ => None
  end.

(** The code unit an escape letter stands for. *)
Definition escape (c : ascii) : option nat :=
  let n := nat_of_ascii c in
  if (n =? 34)%nat then Some 34          (* quote *)
  else if (n =? 92)%nat then Some 92     (* backslash *)
  else if (n =? 47)%nat then Some 47     (* slash *)
  else if (n =? 98)%nat then Some 8      (* b *)
  else if (n =? 102)%nat then Some 12    (* f *)
  else if (n =? 110)%nat then Some 10    (* n *)
  else if (n =? 114)%nat then Some 13    (* r *)
  else if (n =? 116)%nat then Some 9     (* t *)
  else None.

(** A string, after its opening quote: its code units and the rest. *)
Fixpoint parseString (s : string) : option (list nat * string) :=
  match s with
  | EmptyString => None
  | String c r =>
      let n := nat_of_ascii c in
      if (n =? 34)%nat then Some ([], r)
      else if (n =? 92)%nat then
        match r with
        | String e r' =>
            if (nat_of_ascii e =? 117)%nat then
              match r' with
              | String h1 (String h2 (String h3 (String h4 r''))) =>
                  match hex4 h1 h2 h3 h4, parseString r'' with
                  | Some u, Some (us, rest) => Some (u :: us, rest)
                  | _, _ => None
                  end
              | _ => None
              end
            else
              match escape e, parseString r' with
              | Some u, Some (us, rest) => Some (u :: us, rest)
              | _, _ => None
              end
        | EmptyString => None
        end
      else if (n <? 32)%nat then None
      else
        match parseString r with
        | Some (us, rest) => Some (n :: us, rest)
        | None => None
        end
  end.

(** A number: its literal and the rest. *)
Definition parseNumber (s : string) : option (string * string) :=
  let sign := if String.prefix "-" s then "-" else "" in
  let s1 := JS.drop (String.length sign) s in
  let digits := JS.takeWhile isDigit s1 in
  let int := if String.prefix "0" digits then "0" else digits in
  if int =? "" then None
  else
    let s2 := JS.drop (String.length int) s1 in
    let frac := if String.prefix "." s2 then JS.takeWhile isDigit (JS.drop 1 s2) else "" in
    if String.prefix "." s2 && (frac =? "") then None
    else
      let s3 := if String.prefix "." s2 then JS.drop (S (String.length frac)) s2 else s2 in
      let dotted := if String.prefix "." s2 then "." ++ frac else "" in
      if JS.prefix_ci "e" s3 then
        let s4 := JS.drop 1 s3 in
        let esign := if String.prefix "+" s4 then "+" else if String.prefix "-" s4 then "-" else "" in
        let s5 := JS.drop (String.length esign) s4 in
        let edigits := JS.takeWhile isDigit s5 in
        if edigits =? "" then None
        else Some (sign ++ int ++ dotted ++ JS.take 1 s3 ++ esign ++ edigits,
                   JS.drop (String.length edigits) s5)
      else Some (sign ++ int ++ dotted, s3).

(** A value, the elements of an array after its bracket or a comma, and
    the members of an object after its brace or a comma; [fuel] bounds the
    nesting and the length. *)
Fixpoint parseValue (fuel : nat) (s : string) : option (JSON.value * string) :=
  match fuel with
  | O => None
  | S f =>
      match skipWs s with
      | EmptyString => None
      | String c r =>
          let n := nat_of_ascii c in
          if (n =? 91)%nat then            (* [ *)
            match skipWs r with
            | String c' r' =>
                if (nat_of_ascii c' =? 93)%nat then Some (JSON.Array [], r')
                else match parseElements f r with
                     | Some (items, rest) => Some (JSON.Array items, rest)
                     | None => None
                     end
            | EmptyString => None
            end
          else if (n =? 123)%nat then      (* { *)
            match skipWs r with
            | String c' r' =>
                if (nat_of_ascii c' =? 125)%nat then Some (JSON.Object [], r')
                else match parseMembers f r with
                     | Some (members, rest) => Some (JSON.Object members, rest)
                     | None => None
                     end
            | EmptyString => None
            end
          else if (n =? 34)%nat then       (* a string *)
            match parseString r with
            | Some (us, rest) => Some (JSON.Str us, rest)
            | None => None
            end
          else if String.prefix "true" (String c r) then Some (JSON.Bool true, JS.drop 4 (String c r))
          else if String.prefix "false" (String c r) then Some (JSON.Bool false, JS.drop 5 (String c r))
          else if String.prefix "null" (String c r) then Some (JSON.Null, JS.drop 4 (String c r))
          else
            match parseNumber (String c r) with
            | Some (literal, rest) => Some (JSON.Number literal, rest)
            | None => None
            end
      end
  end

with parseElements (fuel : nat) (s : string) : option (list JSON.value * string) :=
  match fuel with
  | O => None
  | S f =>
      match parseValue f s with
      | Some (v, rest) =>
          match skipWs rest with
          | String c r =>
              if (nat_of_ascii c =? 44)%nat then        (* , *)
                match parseElements f r with
                | Some (vs, rest') => Some (v :: vs, rest')
                | None => None
                end
              else if (nat_of_ascii c =? 93)%nat then Some ([v], r)
              else None
          | EmptyString => None
          end
      | None => None
      end
  end

with parseMembers (fuel : nat) (s : string) : option (list (list nat * JSON.value) * string) :=
  match fuel with
  | O => None
  | S f =>
      match skipWs s with
      | String q r =>
          if (nat_of_ascii q =? 34)%nat then
            match parseString r with
            | Some (key, rest) =>
                match skipWs rest with
                | String colon r1 =>
                    if (nat_of_ascii colon =? 58)%nat then
                      match parseValue f r1 with
                      | Some (v, rest1) =>
                          match skipWs rest1 with
                          | String c r2 =>
                              if (nat_of_ascii c =? 44)%nat then
                                match parseMembers f r2 with
                                | Some (ms, rest2) => Some ((key, v) :: ms, rest2)
                                | None => None
                                end
                              else if (nat_of_ascii c =? 125)%nat then Some ([(key, v)], r2)
                              else None
                          | EmptyString => None
                          end
                      | None => None
                      end
                    else None
                | EmptyString => None
                end
            | None => None
            end
          else None
      | EmptyString => None
      end
  end.

(** [JSON.parse(text)]: the value, or a [SyntaxError]. *)
Definition parse (text : string) : Completion JSON.value :=
  match parseValue (2 * String.length text + 2) text with
  | Some (v, rest) =>
      match skipWs rest with
      | EmptyString => Return v
      | _ => Throw (Error "Unexpected token in JSON")
      end
  | None => Throw (Error "Unexpected token in JSON")
  end.

End JSONText.

(** A browser page with the given build-time key and remote behaviour. *)
Definition browser (key : option string) (remote : nat -> Request.t -> FetchOutcome)
    (removeWhiteBackground : File -> Completion string) : Platform :=
  {| VITE_OPENROUTER_API_KEY := key;
     process_env := None;
     location_href := "http://localhost:3000/";
     remote := remote;
     JSON_parse := JSONText.parse;
     Date_now := fun n => 1000 + n;
     Math_random := fun n => "0.52" ++ JS.toString n ++ "7731948";
     removeWhiteBackground := removeWhiteBackground |}.

(** A response with status 200 whose body holds the given choices. *)
Definition ok200 (choices : list Response.Choice) : FetchOutcome :=
  Return (Response.make true "OK" (Return (Response.mkBody None (Some choices)))).

(** A choice that holds a text. *)
Definition textChoice (content : string) : Response.Choice :=
  Response.mkChoice (Some (Response.mkMessage (Some content) None)).

(** A choice that holds an image attachment and no text. *)
Definition imageChoice (url : string) : Response.Choice :=
  Response.mkChoice (Some (Response.mkMessage None
    (Some [Response.mkImage (Some (Response.mkImageUrl (Some url)))]))).

(** The page as it is first rendered, with the given file chosen. *)
Definition DEFAULT_PRESETS : list ScenarioPreset.t :=
  [ ScenarioPreset.make "minimalist" "Minimalist Studio"
      "A clean, high-end studio setting with soft, diffused lighting and a neutral beige or white background. Minimal props, focus entirely on the product elegance."
      "High quality, 8k, commercial photography, soft lighting" None None ].

Definition initialReact : React.t :=
  React.make None None true DEFAULT_PRESETS [] ["minimalist"] ""
             (ProcessingState.make IDLE "") [].

Definition initialWorld : World :=
  mkWorld initialReact (FactoryState.make [] LLMServiceConfig.empty) 0 [] [] [] 0 0 0.

(** ** Pages and platforms for the examples *)

Definition exampleService : Service.t :=
  Service.make 0 LLMServiceConfig.empty GEMINI_3_PRO_IMAGE_PREVIEW.

(** A background removal that answers with a data URL. *)
Definition removed (file : File) : Completion string :=
  Return ("data:image/png;base64," ++ file).

(** A page with a key whose every request is answered with [choices]. *)
Definition answering (choices : list Response.Choice) : Platform :=
  browser (Some "sk-or-v1-example") (fun _ _ => ok200 choices) removed.

(** A page with a key and no network. *)
Definition offline : Platform :=
  browser (Some "sk-or-v1-example") (fun _ _ => Throw (Error "Failed to fetch")) removed.

(** A page without any key. *)
Definition keyless : Platform :=
  browser None (fun _ _ => Throw (Error "Failed to fetch")) removed.

(** A remote that answers the text model with a prompt and the image
    model with an image. *)
Definition studioRemote (n : nat) (request : Request.t) : FetchOutcome :=
  if Request.model request =? "google/gemini-3-pro-image-preview"
  then ok200 [imageChoice ("data:image/png;base64,SCENE" ++ JS.toString n)]
  else ok200 [textChoice ("Detailed prompt number " ++ JS.toString n)].

Definition studio : Platform := browser (Some "sk-or-v1-example") studioRemote removed.

(** The same remote, except that the request numbered [k] is rejected. *)
Definition flaky (k : nat) : Platform :=
  browser (Some "sk-or-v1-example")
          (fun n request =>
             if (n =? k)%nat then Throw (Error "Failed to fetch") else studioRemote n request)
          removed.

Definition examplePresets : list ScenarioPreset.t :=
  (DEFAULT_PRESETS ++
   [ ScenarioPreset.make "rustic" "Rustic Outdoor"
       "A wooden table in a forest clearing, morning light." "High quality, photorealistic, 8k"
       None None;
     ScenarioPreset.make "kitchen" "Sunny Kitchen"
       "A bright kitchen counter next to a window." "High quality, photorealistic, 8k"
       None None ])%list.

(** A page with a product chosen, three presets selected, and the given
    step on screen. *)
Definition examplePage (removeBg : bool) (step : Step) : World :=
  mkWorld
    (React.make (Some "product.png") (Some "data:image/png;base64,QUJD") removeBg
                examplePresets [] ["minimalist"; "rustic"; "kitchen"] ""
                (ProcessingState.make step "") [])
    (FactoryState.make [] LLMServiceConfig.empty) 0 [] [] [] 0 0 0.

(** A page with a product chosen and the first preset selected, before
    anything was generated. *)
Definition firstVisit : World :=
  mkWorld
    (React.make (Some "product.png") (Some "data:image/png;base64,QUJD") false
                DEFAULT_PRESETS [] ["minimalist"] ""
                (ProcessingState.make IDLE "") [])
    (FactoryState.make [] LLMServiceConfig.empty) 0 [] [] [] 0 0 0.

(** The handlers of events that arrive one after the other; what one
    throws does not keep the next from running. *)
Fixpoint handled (handlers : list (M unit)) : M unit :=
  match handlers with
  | [] => ret tt
  | handler :: rest => fun w => handled rest (snd (handler w))
  end.

(** While the call made after [n] settled calls is pending, the given
    handlers run in order; nothing else happens during the other calls. *)
Definition during (n : nat) (handlers : list (M unit)) : nat -> M unit :=
  fun k => if (k =? n)%nat then handled handlers else ret tt.

(** The pieces of a template, read from the left: the text up to the
    next [{{], then the key up to the next [}}]. *)
Fixpoint pieces_loop (rounds : nat) (s : string) : list Template.Piece :=
  match rounds with
  | O => [Template.Text s]
  | S r =>
      match JS.cut "{{" s with
      | None => [Template.Text s]
      | Some (text, rest) =>
          match JS.cut "}}" rest with
          | None => [Template.Text s]
          | Some (key, after) =>
              Template.Text text :: Template.Hole key :: pieces_loop r after
          end
      end
  end.

Definition pieces_of (s : string) : list Template.Piece :=
  pieces_loop (String.length s) s.

(* ================================================================== *)
(** * Facts about strings *)
(* ================================================================== *)

Section StringFacts.

Lemma app_empty_r (s : string) : s ++ "" = s.
Proof. induction s as [|c s IH]; simpl; [reflexivity | now rewrite IH]. Qed.

Lemma app_assoc_s (a b c : string) : (a ++ b) ++ c = a ++ b ++ c.
Proof. induction a as [|x a IH]; simpl; [reflexivity | now rewrite IH]. Qed.

Lemma app_length_s (a b : string) :
  String.length (a ++ b) = String.length a + String.length b.
Proof. induction a as [|x a IH]; simpl; [reflexivity | now rewrite IH]. Qed.

(** Two ways of cutting one string in two differ by a middle part. *)
Lemma app_eq_app_s (a b c d : string) :
  a ++ b = c ++ d ->
  exists l, (a = c ++ l /\ d = l ++ b) \/ (c = a ++ l /\ b = l ++ d).
Proof.
  revert c; induction a as [|x a IH]; intros c H; simpl in H.
  - exists c. right. split; [reflexivity | exact H].
  - destruct c as [|y c]; simpl in H.
    + exists (String x a). left. split; [reflexivity | now rewrite <- H].
    + injection H as -> H. destruct (IH c H) as [l [[-> ->] | [-> ->]]];
        exists l; [left | right]; split; reflexivity.
Qed.

Lemma prefix_empty (s : string) : String.prefix "" s = true.
Proof. destruct s; reflexivity. Qed.

Lemma prefix_cons (x y : ascii) (m s : string) :
  String.prefix (String x m) (String y s) = true <->
  x = y /\ String.prefix m s = true.
Proof.
  simpl. destruct (ascii_dec x y) as [->|N]; split; intros H.
  - split; [reflexivity | exact H].
  - apply H.
  - discriminate.
  - destruct H as [E _]; contradiction.
Qed.

(** [prefix m s] holds exactly when [s] is [m] followed by something. *)
Lemma prefix_iff (m s : string) :
  String.prefix m s = true <-> exists t, s = m ++ t.
Proof.
  revert s; induction m as [|x m IH]; intros s.
  - rewrite prefix_empty. split; [exists s; reflexivity | reflexivity].
  - destruct s as [|y s].
    + split; [discriminate | intros [t H]; discriminate].
    + rewrite prefix_cons, IH. split.
      * intros [-> [t ->]]. exists t. reflexivity.
      * intros [t H]. simpl in H. injection H as -> ->.
        split; [reflexivity | exists t; reflexivity].
Qed.

Lemma drop_app (m t : string) : JS.drop (String.length m) (m ++ t) = t.
Proof. induction m as [|x m IH]; simpl; [now destruct t | exact IH]. Qed.

Lemma includes_unfold (s m : string) :
  JS.includes s m =
  if String.prefix m s then true
  else match s with
       | EmptyString => false
       | String _ s' => JS.includes s' m
       end.
Proof. destruct s; reflexivity. Qed.

Lemma cut_unfold (sep s : string) :
  JS.cut sep s =
  if String.prefix sep s then Some (EmptyString, JS.drop (String.length sep) s)
  else match s with
       | EmptyString => None
       | String c s' =>
           match JS.cut sep s' with
           | Some (before, after) => Some (String c before, after)
           | None => None
           end
       end.
Proof. destruct s; reflexivity. Qed.

Lemma prefix_drop (m s : string) :
  String.prefix m s = true -> s = m ++ JS.drop (String.length m) s.
Proof.
  intros P. apply prefix_iff in P. destruct P as [t ->]. now rewrite drop_app.
Qed.

(** [includes s m] holds exactly when [m] occurs somewhere in [s]. *)
Lemma includes_iff (s m : string) :
  JS.includes s m = true <-> exists pre post, s = pre ++ m ++ post.
Proof.
  induction s as [|c s IH]; rewrite includes_unfold.
  - destruct (String.prefix m "") eqn:P.
    + split; [intros _ | reflexivity].
      apply prefix_iff in P. destruct P as [t P]. exists "", t. exact P.
    + split; [discriminate |].
      intros [pre [post H]]. destruct pre; [|discriminate]. simpl in H.
      assert (String.prefix m "" = true) by (apply prefix_iff; now exists post).
      congruence.
  - destruct (String.prefix m (String c s)) eqn:P.
    + split; [intros _ | reflexivity].
      apply prefix_iff in P. destruct P as [t P]. exists "", t. exact P.
    + rewrite IH. split.
      * intros [pre [post ->]]. exists (String c pre), post. reflexivity.
      * intros [pre [post H]]. destruct pre as [|x pre]; simpl in H.
        -- assert (String.prefix m (String c s) = true)
             by (apply prefix_iff; now exists post).
           congruence.
        -- injection H as _ ->. exists pre, post. reflexivity.
Qed.

Lemma includes_false_iff (s m : string) :
  JS.includes s m = false <-> ~ exists pre post, s = pre ++ m ++ post.
Proof.
  rewrite <- includes_iff. destruct (JS.includes s m); split; intros H.
  - discriminate.
  - exfalso; apply H; reflexivity.
  - discriminate.
  - reflexivity.
Qed.

(** An occurrence inside a part is an occurrence in the whole. *)
Lemma includes_part (x p y m : string) :
  JS.includes p m = true -> JS.includes (x ++ p ++ y) m = true.
Proof.
  rewrite !includes_iff. intros [pre [post ->]].
  exists (x ++ pre), (post ++ y). now rewrite !app_assoc_s.
Qed.

End StringFacts.

(* ================================================================== *)
(** * Facts about [split] and [join] *)
(* ================================================================== *)

Section SplitJoin.

Lemma includes_empty_l (sep : string) : sep <> "" -> JS.includes "" sep = false.
Proof. intros NE. destruct sep; [contradiction | reflexivity]. Qed.

Lemma cut_some (sep s before after : string) :
  JS.cut sep s = Some (before, after) -> s = before ++ sep ++ after.
Proof.
  revert before; induction s as [|c s IH]; intros before; rewrite cut_unfold.
  - destruct (String.prefix sep "") eqn:P; [|discriminate].
    intros H; injection H as <- <-. now apply prefix_drop.
  - destruct (String.prefix sep (String c s)) eqn:P.
    + intros H; injection H as <- <-. now apply prefix_drop.
    + destruct (JS.cut sep s) as [[b a]|]; [|discriminate].
      intros H; injection H as <- <-. simpl. now rewrite <- (IH b).
Qed.

Lemma cut_none (sep s : string) :
  JS.cut sep s = None <-> JS.includes s sep = false.
Proof.
  induction s as [|c s IH]; rewrite cut_unfold, includes_unfold.
  - destruct (String.prefix sep ""); split; congruence.
  - destruct (String.prefix sep (String c s)); [split; congruence|].
    rewrite <- IH. destruct (JS.cut sep s) as [[b a]|]; split; congruence.
Qed.

(** The text before the first occurrence holds no occurrence. *)
Lemma cut_before_clean (sep s before after : string) :
  sep <> "" -> JS.cut sep s = Some (before, after) ->
  JS.includes before sep = false.
Proof.
  intros NE. revert before; induction s as [|c s IH]; intros before;
    rewrite cut_unfold.
  - destruct (String.prefix sep "") eqn:P; [|discriminate].
    intros H; injection H as <- <-. now apply includes_empty_l.
  - destruct (String.prefix sep (String c s)) eqn:P.
    + intros H; injection H as <- <-. now apply includes_empty_l.
    + destruct (JS.cut sep s) as [[b a]|] eqn:C; [|discriminate].
      intros H; injection H as <- <-. rewrite includes_unfold.
      destruct (String.prefix sep (String c b)) eqn:Q.
      * apply prefix_iff in Q. destruct Q as [t Q].
        apply cut_some in C.
        assert (String.prefix sep (String c s) = true).
        { apply prefix_iff. exists (t ++ sep ++ a).
          rewrite C.
          change (String c (b ++ sep ++ a)) with (String c b ++ sep ++ a).
          rewrite Q. apply app_assoc_s. }
        congruence.
      * now apply IH.
Qed.

Lemma split_loop_spec (sep : string) :
  sep <> "" ->
  forall n s, String.length s <= n ->
    JS.join sep (JS.split_loop n sep s) = s /\
    Forall (fun p => JS.includes p sep = false) (JS.split_loop n sep s).
Proof.
  intros NE. induction n as [|n IH]; intros s L; simpl.
  - destruct s; [|simpl in L; lia]. split; [reflexivity|].
    constructor; [now apply includes_empty_l | constructor].
  - destruct (JS.cut sep s) as [[b a]|] eqn:C.
    + pose proof (cut_some _ _ _ _ C) as E.
      assert (String.length a <= n) as La.
      { rewrite E in L. rewrite !app_length_s in L.
        assert (String.length sep <> 0) by (destruct sep; [contradiction | discriminate]).
        lia. }
      destruct (IH a La) as [J F]. split.
      * destruct (JS.split_loop n sep a) as [|p ps] eqn:S.
        -- destruct n; simpl in S; [discriminate|].
           destruct (JS.cut sep a) as [[? ?]|]; discriminate.
        -- change (b ++ sep ++ JS.join sep (p :: ps) = s). now rewrite J.
      * constructor; [eapply cut_before_clean; eassumption | exact F].
    + split; [reflexivity|]. constructor; [now apply cut_none | constructor].
Qed.

(** [split] on a non-empty separator: the pieces, glued back with the
    separator, give the text again, and no piece holds the separator. *)
Lemma split_spec (sep s : string) :
  sep <> "" ->
  JS.join sep (JS.split sep s) = s /\
  Forall (fun p => JS.includes p sep = false) (JS.split sep s).
Proof.
  intros NE. unfold JS.split. destruct sep as [|c sep]; [contradiction|].
  now apply split_loop_spec.
Qed.

(** A text without the separator is a single piece. *)
Lemma split_absent (sep s : string) :
  sep <> "" -> JS.includes s sep = false -> JS.split sep s = [s].
Proof.
  intros NE H. unfold JS.split. destruct sep as [|c sep]; [contradiction|].
  destruct (String.length s); simpl; [reflexivity|].
  apply cut_none in H. now rewrite H.
Qed.

(** Every piece of a joined list is a part of the result. *)
Lemma join_part (glue p : string) (ps : list string) :
  In p ps -> exists x y, JS.join glue ps = x ++ p ++ y.
Proof.
  induction ps as [|q ps IH]; [contradiction|]. intros [->|I].
  - destruct ps as [|r ps].
    + exists "", "". simpl. now rewrite app_empty_r.
    + exists "", (glue ++ JS.join glue (r :: ps)). reflexivity.
  - destruct ps as [|r ps]; [contradiction|].
    destruct (IH I) as [x [y E]].
    exists (q ++ glue ++ x), y.
    change (q ++ glue ++ JS.join glue (r :: ps) = (q ++ glue ++ x) ++ p ++ y).
    rewrite E. now rewrite !app_assoc_s.
Qed.

End SplitJoin.

(* ================================================================== *)
(** * The template engine *)
(* ================================================================== *)

Section TemplateFacts.

Import Template.

Lemma char_in_app (c : ascii) (a b : string) :
  char_in c (a ++ b) = char_in c a || char_in c b.
Proof.
  induction a as [|x a IH]; simpl; [reflexivity|].
  now rewrite IH, orb_assoc.
Qed.

Lemma plain_app (a b : string) : plain (a ++ b) = plain a && plain b.
Proof.
  unfold plain. rewrite !char_in_app.
  destruct (char_in "{" a), (char_in "{" b), (char_in "}" a), (char_in "}" b);
    reflexivity.
Qed.

Lemma plain_open (s : string) : plain (String "{" s) = false.
Proof. reflexivity. Qed.

Lemma plain_close (s : string) : plain (String "}" s) = false.
Proof. unfold plain. cbn. now rewrite andb_false_r. Qed.

(** A non-empty end of a text that ends with [c] ends with [c]. *)
Lemma end_of (c : ascii) :
  forall a x l, a ++ String c "" = x ++ l -> l <> "" ->
    exists u, l = u ++ String c "".
Proof.
  induction a as [|d a IH]; intros x l E NE.
  - destruct x as [|y x]; simpl in E.
    + exists "". now rewrite <- E.
    + injection E as _ E. destruct x; destruct l; try discriminate. contradiction.
  - destruct x as [|y x]; simpl in E.
    + exists (String d a). now rewrite <- E.
    + injection E as _ E. now apply (IH x).
Qed.

(** A non-empty end of a marker holds a closing brace, and a non-empty
    start of a marker an opening one. *)
Lemma marker_end (k x l : string) : marker k = x ++ l -> l <> "" -> plain l = false.
Proof.
  intros E NE.
  assert (marker k = ("{{" ++ k ++ "}") ++ "}") as M
    by (unfold marker; now rewrite !app_assoc_s).
  rewrite M in E. destruct (end_of _ _ _ _ E NE) as [u ->].
  rewrite plain_app. rewrite plain_close. apply andb_false_r.
Qed.

Lemma marker_start (k l y : string) : marker k = l ++ y -> l <> "" -> plain l = false.
Proof.
  intros E NE. destruct l as [|c l]; [contradiction|].
  unfold marker in E. simpl in E. injection E as <- _. apply plain_open.
Qed.

Lemma marker_not_plain (k : string) : plain (marker k) = false.
Proof. reflexivity. Qed.

(** An occurrence of the marker of [k] in [a ++ v ++ b], where [v] is
    not empty, holds no brace and is no part of the marker, lies within
    [a] or within [b]. *)
Lemma occurrence_avoids (a v b k : string) :
  v <> "" -> plain v = true -> JS.includes (marker k) v = false ->
  JS.includes (a ++ v ++ b) (marker k) = true ->
  JS.includes a (marker k) = true \/ JS.includes b (marker k) = true.
Proof.
  intros NE Pv Part. rewrite !includes_iff. intros [pre [post H]].
  apply app_eq_app_s in H. destruct H as [l [[Ea H] | [Ep H]]].
  - (* the occurrence starts inside [a] *)
    symmetry in H. apply app_eq_app_s in H. destruct H as [l2 [[El H] | [Em H]]].
    + (* and ends inside [a] *)
      left. exists pre, l2. now rewrite Ea, El.
    + apply app_eq_app_s in H. destruct H as [l3 [[Ev H] | [El2 H]]].
      * (* it would end inside [v] *)
        assert (l2 = "") as Z.
        { destruct l2 as [|c l2]; [reflexivity|]. exfalso.
          assert (plain (String c l2) = false) as N
            by (apply (marker_end k l); [exact Em | discriminate]).
          rewrite Ev, plain_app, N in Pv. discriminate. }
        subst l2. left. exists pre, "". rewrite Ea, Em.
        now rewrite !app_empty_r.
      * (* it would hold all of [v] *)
        exfalso. apply includes_false_iff in Part. apply Part.
        exists l, l3. now rewrite Em, El2.
  - (* the occurrence starts after [a] *)
    apply app_eq_app_s in H. destruct H as [l2 [[Ev H] | [El H]]].
    + (* inside [v] *)
      symmetry in H. apply app_eq_app_s in H. destruct H as [l3 [[El2 H] | [Em H]]].
      * (* and it lies inside [v] *)
        exfalso. rewrite Ev, El2, !plain_app, marker_not_plain in Pv.
        rewrite andb_false_r in Pv. discriminate.
      * (* or it runs into [b] *)
        assert (l2 = "") as Z.
        { destruct l2 as [|c l2]; [reflexivity|]. exfalso.
          assert (plain (String c l2) = false) as N
            by (apply (marker_start k _ l3); [exact Em | discriminate]).
          rewrite Ev, plain_app, N, andb_false_r in Pv. discriminate. }
        subst l2. right. exists "", post. simpl in Em. now rewrite H, Em.
    + (* after [v] *)
      right. exists l2, post. exact H.
Qed.

(** Gluing clean pieces with a safe value gives a clean text. *)
Lemma join_clean (v k : string) (pieces : list string) :
  v <> "" -> plain v = true -> JS.includes (marker k) v = false ->
  Forall (fun p => JS.includes p (marker k) = false) pieces ->
  JS.includes (JS.join v pieces) (marker k) = false.
Proof.
  intros NE Pv Part F. induction F as [|p ps Hp F IH].
  - reflexivity.
  - destruct ps as [|q ps]; [exact Hp|].
    change (JS.includes (p ++ v ++ JS.join v (q :: ps)) (marker k) = false).
    destruct (JS.includes (p ++ v ++ JS.join v (q :: ps)) (marker k)) eqn:E; [|reflexivity].
    apply occurrence_avoids in E; [|assumption|assumption|assumption].
    destruct E as [E|E]; congruence.
Qed.

Lemma marker_nonempty (k : string) : marker k <> "".
Proof. discriminate. Qed.

(** One round replaces every occurrence of the marker: the text is cut at
    the occurrences, found from the left and not overlapping, and the
    pieces are glued with the value. *)
Lemma substitute_spec (s k v : string) :
  exists pieces,
    JS.join (marker k) pieces = s /\
    Forall (fun p => JS.includes p (marker k) = false) pieces /\
    substitute s (k, v) = JS.join v pieces.
Proof.
  exists (JS.split (marker k) s).
  destruct (split_spec (marker k) s (marker_nonempty k)) as [J F].
  repeat split; assumption.
Qed.

(** A round whose marker does not occur changes nothing. *)
Lemma substitute_absent (s k v : string) :
  JS.includes s (marker k) = false -> substitute s (k, v) = s.
Proof.
  intros H. unfold substitute; cbn [fst snd].
  now rewrite (split_absent _ _ (marker_nonempty k) H).
Qed.

(** A round with a safe value leaves no occurrence of its marker. *)
Lemma substitute_kills (s k v : string) :
  v <> "" -> plain v = true -> JS.includes (marker k) v = false ->
  JS.includes (substitute s (k, v)) (marker k) = false.
Proof.
  intros NE Pv Part. unfold substitute; cbn [fst snd].
  apply join_clean; try assumption.
  apply split_spec, marker_nonempty.
Qed.

(** A round with a safe value creates no occurrence of another marker. *)
Lemma substitute_preserves (s k v k' : string) :
  v <> "" -> plain v = true -> JS.includes (marker k') v = false ->
  JS.includes s (marker k') = false ->
  JS.includes (substitute s (k, v)) (marker k') = false.
Proof.
  intros NE Pv Part H. unfold substitute; cbn [fst snd].
  apply join_clean; try assumption.
  destruct (split_spec (marker k) s (marker_nonempty k)) as [J _].
  apply Forall_forall. intros p I.
  destruct (JS.includes p (marker k')) eqn:E; [|reflexivity].
  destruct (join_part (marker k) p _ I) as [x [y P]].
  rewrite J in P. rewrite P in H.
  now rewrite (includes_part x p y (marker k') E) in H.
Qed.

(** What [safe] says, entry by entry. *)
Lemma safe_spec (V : list (string * string)) :
  safe V = true ->
  forall k v k' v', In (k, v) V -> In (k', v') V ->
    v <> "" /\ plain v = true /\ JS.includes (marker k') v = false.
Proof.
  unfold safe, safe_value. intros H k v k' v' I I'.
  rewrite forallb_forall in H. specialize (H _ I). simpl in H.
  apply andb_true_iff in H. destruct H as [H F].
  apply andb_true_iff in H. destruct H as [N Pv]. split; [|split].
  - intros ->. discriminate.
  - exact Pv.
  - rewrite forallb_forall in F. specialize (F _ I'). simpl in F.
    now apply negb_true_iff in F.
Qed.

(** The rounds for [todo], run on a text in which the markers of [done]
    no longer occur, leave no marker of [done ++ todo]. *)
Lemma rounds_clean (V : list (string * string)) :
  safe V = true ->
  forall todo done s,
    incl (done ++ todo)%list V ->
    (forall k v, In (k, v) done -> JS.includes s (marker k) = false) ->
    forall k v, In (k, v) (done ++ todo)%list ->
      JS.includes (fold_left substitute todo s) (marker k) = false.
Proof.
  intros HV. induction todo as [|[k0 v0] todo IH]; intros done s Sub Inv k v I.
  - rewrite app_nil_r in I. simpl. eauto.
  - simpl.
    assert (In (k0, v0) V) as I0 by (apply Sub, in_or_app; right; now left).
    apply (IH (done ++ [(k0, v0)])%list) with (v := v).
    + now rewrite <- app_assoc.
    + intros k1 v1 I1. apply in_app_or in I1. destruct I1 as [I1|[I1|[]]].
      * assert (In (k1, v1) V) as I1' by (apply Sub, in_or_app; now left).
        destruct (safe_spec V HV k0 v0 k1 v1 I0 I1') as [NE [Pv Part]].
        apply substitute_preserves; eauto.
      * injection I1 as <- <-.
        destruct (safe_spec V HV k0 v0 k0 v0 I0 I0) as [NE [Pv Part]].
        now apply substitute_kills.
    + now rewrite <- app_assoc.
Qed.

(** Rounds whose markers do not occur change nothing. *)
Lemma rounds_absent (V : list (string * string)) (s : string) :
  (forall k v, In (k, v) V -> JS.includes s (marker k) = false) ->
  processTemplate s V = s.
Proof.
  unfold processTemplate. induction V as [|[k v] V IH]; intros H; simpl.
  - reflexivity.
  - rewrite substitute_absent by (apply (H k v); now left).
    apply IH. intros k' v' I. apply (H k' v'). now right.
Qed.

(** Safe rounds do not create an occurrence of a marker of the map. *)
Lemma rounds_preserve (V : list (string * string)) :
  safe V = true ->
  forall todo s k v, incl todo V -> In (k, v) V ->
    JS.includes s (marker k) = false ->
    JS.includes (fold_left substitute todo s) (marker k) = false.
Proof.
  intros HV. induction todo as [|[k0 v0] todo IH]; intros s k v Sub I H; simpl.
  - exact H.
  - apply (IH _ k v); [intros e Ie; apply Sub; now right | exact I |].
    assert (In (k0, v0) V) as I0 by (apply Sub; now left).
    destruct (safe_spec V HV k0 v0 k v I0 I) as [NE [Pv Part]].
    apply substitute_preserves; auto.
Qed.

End TemplateFacts.

(* ================================================================== *)
(** * Replacing around a marker of another key *)
(* ================================================================== *)

Section Replace.

Lemma split_loop_nonempty (n : nat) (m s : string) : JS.split_loop n m s <> [].
Proof.
  destruct n; simpl; [discriminate|].
  destruct (JS.cut m s) as [[b a]|]; discriminate.
Qed.

Lemma join_cons (v b : string) (l : list string) :
  l <> [] -> JS.join v (b :: l) = b ++ v ++ JS.join v l.
Proof. destruct l; [contradiction | reflexivity]. Qed.

Lemma cut_shorter (m s b a : string) :
  m <> "" -> JS.cut m s = Some (b, a) -> String.length a < String.length s.
Proof.
  intros NE C. apply cut_some in C. subst s. rewrite !app_length_s.
  destruct m; [contradiction | simpl; lia].
Qed.

Lemma cut_empty (m : string) : m <> "" -> JS.cut m "" = None.
Proof. intros NE. destruct m; [contradiction | reflexivity]. Qed.

(** Any number of rounds that covers the length gives the same pieces. *)
Lemma split_loop_enough (m : string) :
  m <> "" ->
  forall n1 n2 s, String.length s <= n1 -> String.length s <= n2 ->
    JS.split_loop n1 m s = JS.split_loop n2 m s.
Proof.
  intros NE. induction n1 as [|n1 IH]; intros n2 s L1 L2.
  - destruct s; [|simpl in L1; lia].
    destruct n2; cbn [JS.split_loop]; [reflexivity|]. now rewrite cut_empty.
  - destruct n2 as [|n2].
    + destruct s; [|simpl in L2; lia]. cbn [JS.split_loop]. now rewrite cut_empty.
    + cbn [JS.split_loop]. destruct (JS.cut m s) as [[b a]|] eqn:C; [|reflexivity].
      pose proof (cut_shorter m s b a NE C). f_equal. apply IH; lia.
Qed.

(** Replacing every occurrence, one cut at a time. *)
Lemma replace_unfold (m v s : string) :
  m <> "" ->
  JS.join v (JS.split m s) =
  match JS.cut m s with
  | Some (b, a) => b ++ v ++ JS.join v (JS.split m a)
  | None => s
  end.
Proof.
  intros NE. unfold JS.split. destruct m as [|c m]; [contradiction|].
  destruct (String.length s) as [|n] eqn:L.
  - destruct s; [|discriminate]. simpl. reflexivity.
  - cbn [JS.split_loop]. destruct (JS.cut (String c m) s) as [[b a]|] eqn:C; [|reflexivity].
    pose proof (cut_shorter _ s b a NE C).
    rewrite join_cons by apply split_loop_nonempty.
    now rewrite (split_loop_enough _ NE n (String.length a) a) by lia.
Qed.

End Replace.

Section OtherMarker.

Import Template.


Variables k k' : string.
Hypothesis plain_k : plain k = true.
Hypothesis plain_k' : plain k' = true.
Hypothesis other : k <> k'.

Lemma plain_spec (key : string) :
  plain key = true -> char_in "{" key = false /\ char_in "}" key = false.
Proof.
  unfold plain. intros H. apply andb_true_iff in H. destruct H as [A B].
  split; now apply negb_true_iff.
Qed.

Lemma char_in_first (c : ascii) (s t : string) : char_in c (String c s ++ t) = true.
Proof. simpl. now rewrite Ascii.eqb_refl. Qed.

Lemma char_in_suffix (u z w : string) (d : ascii) :
  u ++ String d z = w -> char_in d w = true.
Proof.
  intros <-. rewrite char_in_app. simpl. rewrite Ascii.eqb_refl.
  now rewrite orb_true_r.
Qed.

(** The first code unit of a non-empty end of [key ++ "}}"] is no
    opening brace. *)
Lemma tail_no_open (key u z : string) (d : ascii) :
  plain key = true -> u ++ String d z = key ++ "}}" -> d <> "{"%char.
Proof.
  intros Pk E. apply char_in_suffix in E. rewrite char_in_app in E.
  destruct (plain_spec key Pk) as [O _]. intros ->. rewrite O in E.
  discriminate.
Qed.

Lemma plain_cons (c : ascii) (key : string) :
  plain (String c key) = true ->
  c <> "{"%char /\ c <> "}"%char /\ plain key = true.
Proof.
  unfold plain. cbn [char_in]. intros H. apply andb_true_iff in H. destruct H as [A B].
  apply negb_true_iff in A. apply negb_true_iff in B.
  apply orb_false_iff in A. apply orb_false_iff in B.
  destruct A as [A1 A2], B as [B1 B2].
  split; [intros ->; now rewrite Ascii.eqb_refl in A1|].
  split; [intros ->; now rewrite Ascii.eqb_refl in B1|].
  now rewrite A2, B2.
Qed.

Lemma head_no_open (key t : string) (rest : string) :
  plain key = true -> key ++ "}}" ++ t = String "{" rest -> False.
Proof.
  intros Pk E. destruct key as [|c key]; cbn [append] in E; [discriminate|].
  injection E as -> _. now destruct (plain_cons _ _ Pk) as [N _].
Qed.

(** Two plain keys that agree up to their closing braces are equal. *)
Lemma plain_keys_agree (a b t y : string) :
  plain a = true -> plain b = true ->
  b ++ "}}" ++ y = a ++ "}}" ++ t -> a = b.
Proof.
  revert b. induction a as [|c a IH]; intros b Pa Pb E.
  - destruct b as [|d b]; [reflexivity|]. cbn [append] in E. injection E as -> _.
    now destruct (plain_cons _ _ Pb) as [_ [N _]].
  - destruct b as [|d b]; cbn [append] in E.
    + injection E as <- _. now destruct (plain_cons _ _ Pa) as [_ [N _]].
    + injection E as -> E. f_equal.
      destruct (plain_cons _ _ Pa) as [_ [_ Pa']].
      destruct (plain_cons _ _ Pb) as [_ [_ Pb']].
      now apply (IH b).
Qed.

(** No occurrence of the marker of [k] ends inside, or covers, an
    occurrence of the marker of [k']. *)
Lemma no_straddle (u z y t : string) :
  marker k = u ++ z -> z <> "" -> marker k' ++ y = z ++ t -> False.
Proof.
  unfold marker. intros Em NZ E.
  destruct u as [|c u]; simpl in Em.
  - subst z. simpl in E. rewrite !app_assoc_s in E. injection E as E.
    apply other. symmetry. eapply plain_keys_agree; [exact plain_k' | exact plain_k |].
    symmetry. exact E.
  - injection Em as <- Em. destruct u as [|c u]; simpl in Em.
    + subst z. simpl in E. rewrite !app_assoc_s in E. injection E as E.
      symmetry in E. exact (head_no_open k t _ plain_k E).
    + injection Em as <- Em. destruct z as [|d z]; [contradiction|].
      simpl in E. injection E as <- _.
      exact (tail_no_open k u z _ plain_k (eq_sym Em) eq_refl).
Qed.

(** No occurrence of the marker of [k] starts inside an occurrence of
    the marker of [k']. *)
Lemma no_inner_start (p s y t : string) :
  marker k' = p ++ s -> p <> "" -> s <> "" -> s ++ y = marker k ++ t -> False.
Proof.
  unfold marker. intros Em NP NS E.
  destruct p as [|c p]; [contradiction|]. simpl in Em. injection Em as <- Em.
  destruct p as [|c p]; simpl in Em.
  - subst s. simpl in E. rewrite !app_assoc_s in E. injection E as E.
    exact (head_no_open k' y _ plain_k' E).
  - injection Em as <- Em. destruct s as [|d s]; [contradiction|].
    simpl in E. injection E as -> _.
    exact (tail_no_open k' p s _ plain_k' (eq_sym Em) eq_refl).
Qed.

Lemma marker_not_prefix (p s y : string) :
  marker k' = p ++ s -> s <> "" -> String.prefix (marker k) (s ++ y) = false.
Proof.
  intros Em NS. destruct (String.prefix (marker k) (s ++ y)) eqn:E; [|reflexivity].
  exfalso. apply prefix_iff in E. destruct E as [t E].
  destruct p as [|c p].
  - simpl in Em. subst s.
    exact (no_straddle "" (marker k) y t eq_refl (marker_nonempty k) E).
  - eapply no_inner_start; [exact Em | discriminate | exact NS | exact E].
Qed.

(** Scanning for the marker of [k] runs through an end of the marker of
    [k'] without a match. *)
Lemma cut_skip (y : string) :
  forall s p, marker k' = p ++ s ->
    JS.cut (marker k) (s ++ y) =
    match JS.cut (marker k) y with
    | Some (b, a) => Some (s ++ b, a)
    | None => None
    end.
Proof.
  induction s as [|c s IH]; intros p Em.
  - cbn [append]. destruct (JS.cut (marker k) y) as [[b a]|]; reflexivity.
  - rewrite cut_unfold.
    rewrite (marker_not_prefix p (String c s) y Em) by discriminate.
    cbn [append]. rewrite (IH (p ++ String c "")).
    + destruct (JS.cut (marker k) y) as [[b a]|]; reflexivity.
    + rewrite Em. now rewrite app_assoc_s.
Qed.

(** The first cut of a text that holds the marker of [k'] falls before
    or after that marker. *)
Lemma cut_around (y : string) :
  forall x,
    JS.cut (marker k) (x ++ marker k' ++ y) =
    match JS.cut (marker k) x with
    | Some (b, a) => Some (b, a ++ marker k' ++ y)
    | None =>
        match JS.cut (marker k) y with
        | Some (b, a) => Some (x ++ marker k' ++ b, a)
        | None => None
        end
    end.
Proof.
  induction x as [|c x IH].
  - rewrite (cut_empty _ (marker_nonempty k)). cbn [append].
    exact (cut_skip y (marker k') "" eq_refl).
  - rewrite (cut_unfold (marker k) (String c x)).
    rewrite (cut_unfold (marker k) (String c x ++ marker k' ++ y)).
    destruct (String.prefix (marker k) (String c x)) eqn:Px.
    + apply prefix_iff in Px. destruct Px as [t Ex]. rewrite Ex.
      rewrite app_assoc_s.
      rewrite (proj2 (prefix_iff (marker k) (marker k ++ t ++ marker k' ++ y)))
        by (now exists (t ++ marker k' ++ y)).
      now rewrite !drop_app.
    + assert (String.prefix (marker k) (String c x ++ marker k' ++ y) = false) as Pw.
      { destruct (String.prefix (marker k) (String c x ++ marker k' ++ y)) eqn:E;
          [|reflexivity].
        exfalso. apply prefix_iff in E. destruct E as [t E].
        apply app_eq_app_s in E. destruct E as [l [[Ex _] | [Em Et]]].
        - assert (String.prefix (marker k) (String c x) = true)
            by (apply prefix_iff; now exists l).
          congruence.
        - destruct l as [|d l].
          + rewrite app_empty_r in Em.
            assert (String.prefix (marker k) (String c x) = true)
              by (apply prefix_iff; exists ""; now rewrite app_empty_r).
            congruence.
          + eapply no_straddle; [exact Em | discriminate | exact Et]. }
      rewrite Pw. cbn [append]. rewrite IH.
      destruct (JS.cut (marker k) x) as [[b a]|]; [reflexivity|].
      destruct (JS.cut (marker k) y) as [[b a]|]; reflexivity.
Qed.

(** A round for [k] acts on the text before and on the text after a
    marker of [k'], and leaves the marker as it is. *)
Lemma substitute_around (v y : string) :
  forall n x, String.length x <= n ->
    substitute (x ++ marker k' ++ y) (k, v)
    = substitute x (k, v) ++ marker k' ++ substitute y (k, v).
Proof.
  unfold substitute. cbn [fst snd].
  induction n as [|n IH]; intros x L.
  - destruct x; [|simpl in L; lia]. cbn [append].
    rewrite (replace_unfold (marker k) v (marker k' ++ y) (marker_nonempty k)).
    rewrite (cut_skip y (marker k') "" eq_refl).
    rewrite (replace_unfold (marker k) v y (marker_nonempty k)).
    rewrite (replace_unfold (marker k) v "" (marker_nonempty k)).
    rewrite (cut_empty _ (marker_nonempty k)). cbn [append].
    destruct (JS.cut (marker k) y) as [[b a]|]; [|reflexivity].
    now rewrite app_assoc_s.
  - rewrite (replace_unfold (marker k) v (x ++ marker k' ++ y) (marker_nonempty k)).
    rewrite cut_around.
    rewrite (replace_unfold (marker k) v x (marker_nonempty k)).
    destruct (JS.cut (marker k) x) as [[b a]|] eqn:C.
    + pose proof (cut_shorter _ x b a (marker_nonempty k) C).
      rewrite (IH a) by lia. now rewrite !app_assoc_s.
    + rewrite (replace_unfold (marker k) v y (marker_nonempty k)).
      destruct (JS.cut (marker k) y) as [[b a]|]; [|reflexivity].
      now rewrite !app_assoc_s.
Qed.

End OtherMarker.

Section OtherMarkerRounds.

Import Template.

(** A fill with plain keys acts on the text before and on the text after
    a marker of another plain key, and leaves the marker as it is. *)
Lemma processTemplate_around (k' : string) :
  plain k' = true ->
  forall V x y,
    (forall k v, In (k, v) V -> plain k = true /\ k <> k') ->
    processTemplate (x ++ marker k' ++ y) V
    = processTemplate x V ++ marker k' ++ processTemplate y V.
Proof.
  intros Pk'. unfold processTemplate.
  induction V as [|[k v] V IH]; intros x y H; cbn [fold_left].
  - reflexivity.
  - destruct (H k v (or_introl eq_refl)) as [Pk N].
    rewrite (substitute_around k k' Pk Pk' N v y (String.length x) x (le_n _)).
    apply IH. intros k0 v0 I. apply (H k0 v0). now right.
Qed.

End OtherMarkerRounds.

(* ================================================================== *)
(** * Templates whose braces all belong to markers *)
(* ================================================================== *)

Section Pieces.

Import Template.

Lemma marker_not_at (k s : string) (c : ascii) :
  c <> "{"%char -> String.prefix (marker k) (String c s) = false.
Proof.
  intros N. unfold marker. cbn [append String.prefix].
  destruct (ascii_dec "{" c) as [E|_]; [now subst c | reflexivity].
Qed.

(** Scanning for a marker runs through a text without braces. *)
Lemma cut_text (k rest : string) :
  forall t, plain t = true ->
    JS.cut (marker k) (t ++ rest) =
    match JS.cut (marker k) rest with
    | Some (b, a) => Some (t ++ b, a)
    | None => None
    end.
Proof.
  induction t as [|c t IH]; intros Pt.
  - cbn [append]. destruct (JS.cut (marker k) rest) as [[b a]|]; reflexivity.
  - destruct (plain_cons _ _ Pt) as [N [_ Pt']].
    cbn [append]. rewrite cut_unfold, (marker_not_at k _ c N), (IH Pt').
    destruct (JS.cut (marker k) rest) as [[b a]|]; reflexivity.
Qed.

Lemma cut_at (k rest : string) :
  JS.cut (marker k) (marker k ++ rest) = Some ("", rest).
Proof.
  rewrite cut_unfold.
  rewrite (proj2 (prefix_iff (marker k) (marker k ++ rest))) by (now exists rest).
  now rewrite drop_app.
Qed.

(** One round, piece by piece. *)
Lemma substitute_text (k v t rest : string) :
  plain t = true ->
  substitute (t ++ rest) (k, v) = t ++ substitute rest (k, v).
Proof.
  intros Pt. unfold substitute. cbn [fst snd].
  rewrite (replace_unfold (marker k) v (t ++ rest) (marker_nonempty k)).
  rewrite (replace_unfold (marker k) v rest (marker_nonempty k)).
  rewrite (cut_text k rest t Pt).
  destruct (JS.cut (marker k) rest) as [[b a]|]; [|reflexivity].
  now rewrite app_assoc_s.
Qed.

Lemma substitute_empty (k v : string) : substitute "" (k, v) = "".
Proof. reflexivity. Qed.

Lemma substitute_other (k v k' rest : string) :
  plain k = true -> plain k' = true -> k <> k' ->
  substitute (marker k' ++ rest) (k, v) = marker k' ++ substitute rest (k, v).
Proof.
  intros Pk Pk' N.
  exact (substitute_around k k' Pk Pk' N v rest 0 "" (le_n 0)).
Qed.

Lemma substitute_same (k v rest : string) :
  substitute (marker k ++ rest) (k, v) = v ++ substitute rest (k, v).
Proof.
  unfold substitute. cbn [fst snd].
  rewrite (replace_unfold (marker k) v (marker k ++ rest) (marker_nonempty k)).
  now rewrite cut_at.
Qed.

Lemma substitute_render (k v : string) (pieces : list Piece) :
  plain k = true -> wellformed pieces = true ->
  substitute (render pieces) (k, v) = render (fill [(k, v)] pieces).
Proof.
  intros Pk. induction pieces as [|piece pieces IH]; intros W; [reflexivity|].
  cbn [wellformed forallb] in W. apply andb_true_iff in W. destruct W as [Wp W].
  cbn [render fill map]. change (map (fill_piece [(k, v)]) pieces) with (fill [(k, v)] pieces).
  destruct piece as [t|k']; cbn [render_piece fill_piece lookup].
  - rewrite (substitute_text k v t _ Wp). now rewrite IH.
  - destruct (k =? k') eqn:E.
    + apply String.eqb_eq in E. subst k'. cbn [render_piece].
      rewrite substitute_same. now rewrite IH.
    + apply String.eqb_neq in E. cbn [render_piece].
      rewrite (substitute_other k v k' _ Pk Wp E). now rewrite IH.
Qed.

Lemma plain_map_cons (k v : string) (V : list (string * string)) :
  plain_map ((k, v) :: V) = true ->
  plain k = true /\ plain v = true /\ plain_map V = true.
Proof.
  cbn [plain_map forallb fst snd]. intros H.
  apply andb_true_iff in H. destruct H as [H HV].
  apply andb_true_iff in H. destruct H as [Pk Pv]. now repeat split.
Qed.

Lemma plain_map_in (V : list (string * string)) (k v : string) :
  plain_map V = true -> In (k, v) V -> plain k = true /\ plain v = true.
Proof.
  unfold plain_map. rewrite forallb_forall. intros H I.
  specialize (H _ I). cbn in H. now apply andb_true_iff in H.
Qed.

Lemma lookup_plain (V : list (string * string)) (k v : string) :
  plain_map V = true -> lookup V k = Some v -> plain v = true.
Proof.
  induction V as [|[k0 v0] V IH]; intros PV L; [discriminate|].
  destruct (plain_map_cons _ _ _ PV) as [_ [Pv0 PV']].
  cbn [lookup] in L. destruct (k0 =? k); [now injection L as <- | now apply IH].
Qed.

(** Filling keeps the pieces well formed. *)
Lemma fill_wellformed (V : list (string * string)) (pieces : list Piece) :
  plain_map V = true -> wellformed pieces = true -> wellformed (fill V pieces) = true.
Proof.
  intros PV. induction pieces as [|piece pieces IH]; intros W; [reflexivity|].
  cbn [wellformed forallb] in W. apply andb_true_iff in W. destruct W as [Wp W].
  cbn [fill map wellformed forallb]. apply andb_true_iff. split; [|now apply IH].
  destruct piece as [t|k]; cbn [fill_piece]; [exact Wp|].
  destruct (lookup V k) as [v|] eqn:L; [now apply (lookup_plain V k) | exact Wp].
Qed.

(** Filling for the first entry and then for the others is filling for
    all of them. *)
Lemma fill_cons (k v : string) (V : list (string * string)) (pieces : list Piece) :
  fill V (fill [(k, v)] pieces) = fill ((k, v) :: V) pieces.
Proof.
  unfold fill. rewrite map_map. apply map_ext. intros [t|k']; [reflexivity|].
  cbn [fill_piece lookup]. destruct (k =? k'); reflexivity.
Qed.

(** On a template whose braces all belong to markers, a fill with plain
    keys and values replaces every marker of a key of the map by the
    value of the key, all at once. *)
Lemma processTemplate_render (V : list (string * string)) :
  plain_map V = true ->
  forall pieces, wellformed pieces = true ->
    processTemplate (render pieces) V = render (fill V pieces).
Proof.
  unfold processTemplate. induction V as [|[k v] V IH]; intros PV pieces W.
  - cbn [fold_left]. unfold fill. f_equal. rewrite <- (map_id pieces) at 1.
    apply map_ext. now intros [t|k].
  - destruct (plain_map_cons _ _ _ PV) as [Pk [Pv PV']].
    cbn [fold_left]. rewrite (substitute_render k v pieces Pk W).
    rewrite (IH PV').
    + now rewrite fill_cons.
    + apply fill_wellformed; [|exact W].
      cbn [plain_map forallb fst snd]. now rewrite Pk, Pv.
Qed.

Lemma includes_cut (s m : string) :
  JS.includes s m = match JS.cut m s with Some _ => true | None => false end.
Proof.
  destruct (JS.cut m s) as [p|] eqn:C.
  - destruct (JS.includes s m) eqn:I; [reflexivity|].
    apply cut_none in I. congruence.
  - now apply cut_none.
Qed.

(** The markers of plain keys that occur in such a template are the
    ones among its pieces. *)
Lemma includes_render (k : string) (pieces : list Piece) :
  plain k = true -> wellformed pieces = true ->
  JS.includes (render pieces) (marker k) = has_hole k pieces.
Proof.
  intros Pk. rewrite includes_cut.
  induction pieces as [|piece pieces IH]; intros W.
  - cbn [render has_hole existsb]. now rewrite (cut_empty _ (marker_nonempty k)).
  - cbn [wellformed forallb] in W. apply andb_true_iff in W. destruct W as [Wp W].
    specialize (IH W). cbn [render has_hole existsb].
    change (existsb _ pieces) with (has_hole k pieces).
    destruct piece as [t|k']; cbn [render_piece].
    + rewrite (cut_text k _ t Wp).
      destruct (JS.cut (marker k) (render pieces)) as [[b a]|]; exact IH.
    + destruct (k' =? k) eqn:E.
      * apply String.eqb_eq in E. subst k'. now rewrite cut_at.
      * apply String.eqb_neq in E.
        assert (k <> k') as N by (intros ->; now apply E).
        rewrite (cut_skip k k' Pk Wp N (render pieces) (marker k') "" eq_refl).
        destruct (JS.cut (marker k) (render pieces)) as [[b a]|]; exact IH.
Qed.

Lemma has_hole_fill (V : list (string * string)) (k : string) (pieces : list Piece) :
  has_hole k (fill V pieces) =
  match lookup V k with
  | Some _ => false
  | None => has_hole k pieces
  end.
Proof.
  induction pieces as [|piece pieces IH].
  - cbn. now destruct (lookup V k).
  - cbn [fill map has_hole existsb].
    change (existsb _ (map (fill_piece V) pieces)) with (has_hole k (fill V pieces)).
    change (existsb _ pieces) with (has_hole k pieces).
    rewrite IH. destruct piece as [t|k']; cbn [fill_piece].
    + now destruct (lookup V k).
    + destruct (k' =? k) eqn:E.
      * apply String.eqb_eq in E. subst k'.
        destruct (lookup V k); cbn; [reflexivity|]. now rewrite String.eqb_refl.
      * destruct (lookup V k') as [v'|]; cbn; [reflexivity|]. now rewrite E.
Qed.

Lemma lookup_in (V : list (string * string)) (k v : string) :
  In (k, v) V -> lookup V k <> None.
Proof.
  induction V as [|[k0 v0] V IH]; [contradiction|]. intros [E|I]; cbn [lookup].
  - injection E as -> ->. now rewrite String.eqb_refl.
  - destruct (k0 =? k); [discriminate | now apply IH].
Qed.

Lemma lookup_none (V : list (string * string)) (k : string) :
  (forall v, ~ In (k, v) V) -> lookup V k = None.
Proof.
  induction V as [|[k0 v0] V IH]; intros H; [reflexivity|]. cbn [lookup].
  destruct (k0 =? k) eqn:E.
  - apply String.eqb_eq in E. subst k0. exfalso. apply (H v0). now left.
  - apply IH. intros v I. apply (H v). now right.
Qed.

(** An entry for another key does not change what a key is given. *)
Lemma lookup_without (before after : list (string * string)) (k v k' : string) :
  k <> k' ->
  lookup (before ++ (k, v) :: after)%list k' = lookup (before ++ after)%list k'.
Proof.
  intros N. induction before as [|[k0 v0] before IH]; cbn [app lookup].
  - destruct (k =? k') eqn:E; [|reflexivity].
    apply String.eqb_eq in E. contradiction.
  - now rewrite IH.
Qed.

Lemma fill_without (before after : list (string * string)) (k v : string)
    (pieces : list Piece) :
  has_hole k pieces = false ->
  fill (before ++ (k, v) :: after)%list pieces = fill (before ++ after)%list pieces.
Proof.
  intros H. unfold fill. apply map_ext_in. intros [t|k'] I; [reflexivity|].
  cbn [fill_piece]. rewrite lookup_without; [reflexivity|].
  intros ->. unfold has_hole in H.
  assert (existsb (fun piece => match piece with Text _ => false | Hole k0 => k0 =? k' end)
            pieces = true) as X.
  { apply existsb_exists. exists (Hole k'). split; [exact I | apply String.eqb_refl]. }
  congruence.
Qed.

Lemma plain_map_without (before after : list (string * string)) (e : string * string) :
  plain_map (before ++ e :: after)%list = true -> plain_map (before ++ after)%list = true.
Proof.
  unfold plain_map. rewrite !forallb_app. cbn [forallb]. intros H.
  apply andb_true_iff in H. destruct H as [A B].
  apply andb_true_iff in B. destruct B as [_ B]. now rewrite A, B.
Qed.

End Pieces.

(* ================================================================== *)
(** * The template engine: the properties *)
(* ================================================================== *)

Section TemplateTheorems.

Import Template.

(** C8.  Once the result of a fill holds no marker of any key of the
    map, filling it again with the same map gives it back unchanged. *)
Theorem processTemplate_idempotent (T : string) (V : list (string * string)) :
  (forall k v, In (k, v) V ->
     JS.includes (processTemplate T V) (marker k) = false) ->
  processTemplate (processTemplate T V) V = processTemplate T V.
Proof. apply rounds_absent. Qed.

Lemma processTemplate_idempotent_witness :
  let T := "Target Scene: {{basePrompt}} / Context: {{customContext}}" in
  let V := [("basePrompt", "a marble countertop"); ("customContext", "a cup of coffee")] in
  processTemplate T V = "Target Scene: a marble countertop / Context: a cup of coffee" /\
  processTemplate (processTemplate T V) V = processTemplate T V.
Proof.
  split; [reflexivity|].
  apply processTemplate_idempotent.
  intros k v [E | [E | []]]; injection E as <- <-; reflexivity.
Defined.

(** C4, as amended.  A fill runs one round per entry, in order, on the
    text produced so far.  A round replaces every occurrence of its marker
    (found from the left, not overlapping) by its value; when no marker of
    the map occurs in the template the template comes back unchanged,
    whatever other markers it holds.  When the keys are plain (they hold
    no brace), a marker of a plain key that is not in the map is left as
    it is: the fill acts on the text before it and on the text after it.
    For every template: when every value is safe (not empty, without
    braces, and no part of the marker of a key of the map), the result
    holds no marker of any key of the map, and a key whose marker does
    not occur in the template has no effect on the result.  For a
    template whose braces all belong to markers of plain keys, and a map
    whose keys and values hold no brace (a value may be empty): the fill
    replaces every marker of a key of the map by the value of the key,
    all at once; the result holds no marker of any key of the map, a key
    whose marker does not occur has no effect, and a marker of a plain
    key that is not in the map stays. *)
Theorem processTemplate_spec (T : string) (V : list (string * string)) :
  (forall k v, exists pieces,
      JS.join (marker k) pieces = T /\
      Forall (fun p => JS.includes p (marker k) = false) pieces /\
      processTemplate T [(k, v)] = JS.join v pieces) /\
  ((forall k v, In (k, v) V -> JS.includes T (marker k) = false) ->
      processTemplate T V = T) /\
  (forall k' x y,
      plain k' = true ->
      (forall k v, In (k, v) V -> plain k = true /\ k <> k') ->
      T = x ++ marker k' ++ y ->
      processTemplate T V = processTemplate x V ++ marker k' ++ processTemplate y V) /\
  (safe V = true ->
      (forall k v, In (k, v) V ->
          JS.includes (processTemplate T V) (marker k) = false) /\
      absent_keys_ignored T V) /\
  (forall pieces,
      T = render pieces -> wellformed pieces = true -> plain_map V = true ->
      processTemplate T V = render (fill V pieces) /\
      (forall k v, In (k, v) V ->
          JS.includes (processTemplate T V) (marker k) = false) /\
      absent_keys_ignored T V /\
      (forall k, plain k = true -> (forall v, ~ In (k, v) V) ->
          JS.includes T (marker k) = true ->
          JS.includes (processTemplate T V) (marker k) = true)).
Proof.
  split; [|split; [|split; [|split]]].
  - intros k v. apply substitute_spec.
  - apply rounds_absent.
  - intros k' x y Pk' HV ->. now apply processTemplate_around.
  - intros HV. split.
    + intros k v I. unfold processTemplate.
      apply (rounds_clean V HV V [] T) with (v := v);
        [apply incl_refl | intros ? ? [] | exact I].
    + intros before k v after -> H. unfold processTemplate.
      rewrite !fold_left_app. simpl.
      rewrite substitute_absent; [reflexivity|].
      apply (rounds_preserve _ HV) with (v := v).
      * apply incl_appl, incl_refl.
      * apply in_or_app; right; now left.
      * exact H.
  - intros pieces -> W PV.
    pose proof (processTemplate_render V PV pieces W) as R.
    pose proof (fill_wellformed V pieces PV W) as WF.
    split; [exact R|]. split; [|split].
    + intros k v I. destruct (plain_map_in V k v PV I) as [Pk _].
      rewrite R, (includes_render k _ Pk WF), has_hole_fill.
      destruct (lookup V k) eqn:L; [reflexivity|]. now apply lookup_in in I.
    + intros before k v after E H. subst V.
      assert (plain k = true) as Pk.
      { apply (plain_map_in _ k v PV). apply in_or_app. right. now left. }
      rewrite (includes_render k _ Pk W) in H.
      rewrite R, (fill_without before after k v pieces H).
      symmetry. apply processTemplate_render; [|exact W].
      now apply plain_map_without in PV.
    + intros k Pk N H. rewrite (includes_render k _ Pk W) in H.
      rewrite R, (includes_render k _ Pk WF), has_hole_fill.
      now rewrite (lookup_none V k N).
Qed.

(** The fills the page asks for: a prompt in an arbitrary template, and
    a description with an empty context in the default template. *)
Lemma processTemplate_spec_witness :
  let V := [("prompt", "a sunlit desk")] in
  let U := [("basePrompt", "A wooden table in a forest clearing, morning light.");
            ("customContext", "")] in
  let D := OpenRouter.DEFAULT_USER_TEMPLATE in
  safe V = true /\
  (forall T, JS.includes (processTemplate T V) (marker "prompt") = false) /\
  render (pieces_of D) = D /\
  wellformed (pieces_of D) = true /\
  plain_map U = true /\
  processTemplate D U = render (fill U (pieces_of D)) /\
  JS.includes (processTemplate D U) (marker "basePrompt") = false /\
  JS.includes (processTemplate D U) (marker "customContext") = false.
Proof.
  cbv zeta.
  assert (render (pieces_of OpenRouter.DEFAULT_USER_TEMPLATE)
          = OpenRouter.DEFAULT_USER_TEMPLATE) as R by (vm_compute; reflexivity).
  split; [reflexivity|]. split.
  - intros T.
    apply (proj1 (proj1 (proj2 (proj2 (proj2 (processTemplate_spec T
             [("prompt", "a sunlit desk")])))) eq_refl) "prompt" "a sunlit desk").
    now left.
  - split; [exact R|]. split; [vm_compute; reflexivity|]. split; [reflexivity|].
    destruct (proj2 (proj2 (proj2 (proj2 (processTemplate_spec
                OpenRouter.DEFAULT_USER_TEMPLATE
                [("basePrompt", "A wooden table in a forest clearing, morning light.");
                 ("customContext", "")]))))
                (pieces_of OpenRouter.DEFAULT_USER_TEMPLATE)
                (eq_sym R) eq_refl eq_refl) as [F [L _]].
    split; [exact F|]. split.
    + apply (L "basePrompt" "A wooden table in a forest clearing, morning light.").
      now left.
    + apply (L "customContext" ""). right. now left.
Defined.

(** C4, as stated, fails: a value may bring a marker with it, and a later
    round rewrites what an earlier round inserted.  In the first map the
    marker of [customContext] does not occur in the template, yet the key
    decides the result; in the second the value is a part of the marker
    and the marker of the only key is still there after the fill; in the
    third the template is the marker of the key [a{{b], which is not in
    the map, and the fill takes it apart; in the fourth the value is
    empty and the text around the marker closes up to the marker. *)
Lemma processTemplate_counterexample :
  ~ absent_keys_ignored "Scene: {{basePrompt}}"
      [("basePrompt", "a desk {{customContext}}"); ("customContext", "with a lamp")] /\
  ~ leaves_no_marker "{{{{name}}}}" [("name", "name")] /\
  ~ unmatched_markers_kept "{{a{{b}}" [("b", "x")] /\
  ~ leaves_no_marker "{{{{context}}context}}" [("context", "")].
Proof.
  split; [|split; [|split]].
  - intros H.
    specialize (H [("basePrompt", "a desk {{customContext}}")]
                  "customContext" "with a lamp" [] eq_refl eq_refl).
    vm_compute in H. discriminate.
  - intros H. specialize (H "name" "name" (or_introl eq_refl) eq_refl).
    vm_compute in H. discriminate.
  - intros H. specialize (H "a{{b").
    assert (forall v, ~ In ("a{{b", v) [("b", "x")]) as N
      by (intros v [E | []]; discriminate).
    specialize (H N eq_refl). vm_compute in H. discriminate.
  - intros H. specialize (H "context" "" (or_introl eq_refl) eq_refl).
    vm_compute in H. discriminate.
Qed.

End TemplateTheorems.

(* ================================================================== *)
(** * The adapter: credentials and requests *)
(* ================================================================== *)

Section AdapterFacts.

Import OpenRouter.

Variable P : Platform.

Lemma sends_nil (w : World) : sends w [] = w.
Proof. destruct w; unfold sends; simpl. now rewrite app_nil_r. Qed.

Lemma truthy_some (v : option string) :
  JS.truthy v = true -> exists s, v = Some s /\ (s =? "") = false.
Proof.
  destruct v as [s|]; simpl; [|discriminate].
  intros H. exists s. split; [reflexivity|]. now apply negb_true_iff.
Qed.

Lemma getApiKey_available (this : Service.t) :
  isAvailable P this = true ->
  exists apiKey, forall w, getApiKey P this w = (Return apiKey, w).
Proof.
  unfold isAvailable, getApiKey. intros H.
  destruct (truthy_some _ H) as [s [-> E]]. rewrite E. exists s. reflexivity.
Qed.

Lemma getApiKey_unavailable (this : Service.t) :
  isAvailable P this = false ->
  forall w, getApiKey P this w = (Throw (Error API_KEY_NOT_FOUND), w).
Proof.
  unfold isAvailable, getApiKey, JS.truthy. intros H w.
  destruct (resolveApiKey P this) as [s|]; [|reflexivity].
  apply negb_false_iff in H. now rewrite H.
Qed.

(** A guarded body that sends one request and then only computes: the
    request goes out once, and a failed fetch ends in the handler. *)
Lemma guarded_fetch {A : Type} (req : Request.t) (rest : Response.t -> M A)
    (handler : Thrown -> M A) (w : World) :
  (forall r w0, snd (rest r w0) = w0) ->
  (forall e w0, snd (handler e w0) = w0) ->
  snd (try_catch (response <- fetch P req ;; checkOk response ;; rest response) handler w)
    = sends w [req] /\
  (failed (remote P (List.length (fetches w)) req) = true ->
   exists e, fst (try_catch (response <- fetch P req ;; checkOk response ;; rest response)
                            handler w)
             = fst (handler e (sends w [req]))).
Proof.
  intros Hrest Hhandler. unfold try_catch, bind, fetch, checkOk. cbn beta iota.
  fold (sends w [req]).
  destruct (remote P (List.length (fetches w)) req) as [r|e]; cbn [failed].
  - destruct (Response.ok r) eqn:Ok; cbn.
    + split; [|discriminate].
      specialize (Hrest r (sends w [req])).
      destruct (rest r (sends w [req])) as [[a|e] w1]; cbn in *.
      * exact Hrest.
      * subst w1. apply Hhandler.
    + unfold settle, throw, bind. cbn.
      destruct (Response.json r) as [b|e]; cbn.
      * split; [apply Hhandler | intros _; eexists; reflexivity].
      * split; [apply Hhandler | intros _; eexists; reflexivity].
  - split; [apply Hhandler | intros _; eexists; reflexivity].
Qed.

Lemma bind_run {A B : Type} (m : M A) (k : A -> M B) (w w' : World) (a : A) :
  m w = (Return a, w') -> bind m k w = k a w'.
Proof. intros H. unfold bind. now rewrite H. Qed.

Lemma bind_throws {A B : Type} (m : M A) (k : A -> M B) (w w' : World) (e : Thrown) :
  m w = (Throw e, w') -> bind m k w = (Throw e, w').
Proof. intros H. unfold bind. now rewrite H. Qed.

Lemma firstContentStrict_still (data : Response.Body) (w : World) :
  snd (firstContentStrict data w) = w.
Proof.
  unfold firstContentStrict.
  destruct (Response.choices data) as [[|c l]|]; reflexivity.
Qed.

(** Brings [guarded_fetch] to bear on an operation whose key resolved. *)
Ltac guarded :=
  cbv zeta;
  match goal with
  | |- exists _, snd (try_catch (bind (fetch P ?req)
                        (fun response => bind (checkOk response) (fun _ => @?rest response)))
                      ?h ?w) = _ /\ _ =>
      exists req; destruct (guarded_fetch req rest h w) as [S F]
  end.

Ltac still_after_fetch :=
  intros ? ?; unfold bind, settle, ret, throw;
  repeat match goal with
         | |- context [firstContentStrict ?d ?w0] =>
             let E := fresh "E" in
             pose proof (firstContentStrict_still d w0) as E;
             destruct (firstContentStrict d w0) as [[?|?] ?]; cbn in E; subst
         | |- context [match ?x with _ => _ end] => destruct x; cbn
         | |- context [if ?x then _ else _] => destruct x; cbn
         end;
  reflexivity.

Lemma expandPrompt_run (this : Service.t) (basePrompt customContext : string) (w : World) :
  isAvailable P this = true ->
  exists req,
    snd (expandPrompt P this basePrompt customContext w) = sends w [req] /\
    (failed (remote P (List.length (fetches w)) req) = true ->
     exists m, fst (expandPrompt P this basePrompt customContext w)
               = Throw (Error ("Failed to expand prompt: " ++ m))).
Proof.
  intros H. destruct (getApiKey_available this H) as [k K].
  unfold expandPrompt. rewrite (bind_run _ _ _ _ _ (K w)). guarded.
  - still_after_fetch.
  - reflexivity.
  - split; [exact S|]. intros Fl. destruct (F Fl) as [e E]. rewrite E.
    eexists. reflexivity.
Qed.

Lemma generateImage_run (this : Service.t) (imageBase64 prompt : string)
    (options : option ImageGenerationOptions.t) (w : World) :
  isAvailable P this = true ->
  exists req,
    snd (generateImage P this imageBase64 prompt options w) = sends w [req] /\
    (failed (remote P (List.length (fetches w)) req) = true ->
     exists m, fst (generateImage P this imageBase64 prompt options w)
               = Throw (Error ("Failed to generate image: " ++ m))).
Proof.
  intros H. destruct (getApiKey_available this H) as [k K].
  unfold generateImage. rewrite (bind_run _ _ _ _ _ (K w)). guarded.
  - still_after_fetch.
  - reflexivity.
  - split; [exact S|]. intros Fl. destruct (F Fl) as [e E]. rewrite E.
    eexists. reflexivity.
Qed.

Lemma recommendScenarios_run (this : Service.t) (imageBase64 : string) (w : World) :
  isAvailable P this = true ->
  exists req,
    snd (recommendScenarios P this imageBase64 w) = sends w [req] /\
    (failed (remote P (List.length (fetches w)) req) = true ->
     fst (recommendScenarios P this imageBase64 w)
       = Return (JSON.strings FALLBACK_SCENARIOS)).
Proof.
  intros H. destruct (getApiKey_available this H) as [k K].
  unfold recommendScenarios. rewrite (bind_run _ _ _ _ _ (K w)). guarded.
  - still_after_fetch.
  - reflexivity.
  - split; [exact S|]. intros Fl. destruct (F Fl) as [e E]. rewrite E. reflexivity.
Qed.

Lemma editImage_run (this : Service.t) (imageBase64 maskBase64 prompt : string) (w : World) :
  isAvailable P this = true ->
  exists req,
    snd (editImage P this imageBase64 maskBase64 prompt w) = sends w [req] /\
    (failed (remote P (List.length (fetches w)) req) = true ->
     exists m, fst (editImage P this imageBase64 maskBase64 prompt w)
               = Throw (Error ("Failed to edit image: " ++ m))).
Proof.
  intros H. destruct (getApiKey_available this H) as [k K].
  unfold editImage. rewrite (bind_run _ _ _ _ _ (K w)). guarded.
  - still_after_fetch.
  - reflexivity.
  - split; [exact S|]. intros Fl. destruct (F Fl) as [e E]. rewrite E.
    eexists. reflexivity.
Qed.

Lemma expandPrompt_unavailable (this : Service.t) (basePrompt customContext : string)
    (w : World) :
  isAvailable P this = false ->
  expandPrompt P this basePrompt customContext w = (Throw (Error API_KEY_NOT_FOUND), w).
Proof.
  intros H. unfold expandPrompt.
  now rewrite (bind_throws _ _ _ _ _ (getApiKey_unavailable this H w)).
Qed.

Lemma generateImage_unavailable (this : Service.t) (imageBase64 prompt : string)
    (options : option ImageGenerationOptions.t) (w : World) :
  isAvailable P this = false ->
  generateImage P this imageBase64 prompt options w = (Throw (Error API_KEY_NOT_FOUND), w).
Proof.
  intros H. unfold generateImage.
  now rewrite (bind_throws _ _ _ _ _ (getApiKey_unavailable this H w)).
Qed.

Lemma editImage_unavailable (this : Service.t) (imageBase64 maskBase64 prompt : string)
    (w : World) :
  isAvailable P this = false ->
  editImage P this imageBase64 maskBase64 prompt w = (Throw (Error API_KEY_NOT_FOUND), w).
Proof.
  intros H. unfold editImage.
  now rewrite (bind_throws _ _ _ _ _ (getApiKey_unavailable this H w)).
Qed.

(** C9.  With a credential configured, each operation of the adapter
    sends exactly one request and changes nothing else; when that one
    fetch fails, the operation ends at once, in an error that carries the
    operation's prefix or, for [recommendScenarios], in the fallback
    list. *)
Theorem one_request_per_operation (this : Service.t) (w : World) :
  isAvailable P this = true ->
  (forall basePrompt customContext, exists req,
     snd (expandPrompt P this basePrompt customContext w) = sends w [req] /\
     (failed (remote P (List.length (fetches w)) req) = true ->
      exists m, fst (expandPrompt P this basePrompt customContext w)
                = Throw (Error ("Failed to expand prompt: " ++ m)))) /\
  (forall imageBase64 prompt options, exists req,
     snd (generateImage P this imageBase64 prompt options w) = sends w [req] /\
     (failed (remote P (List.length (fetches w)) req) = true ->
      exists m, fst (generateImage P this imageBase64 prompt options w)
                = Throw (Error ("Failed to generate image: " ++ m)))) /\
  (forall imageBase64, exists req,
     snd (recommendScenarios P this imageBase64 w) = sends w [req] /\
     (failed (remote P (List.length (fetches w)) req) = true ->
      fst (recommendScenarios P this imageBase64 w)
        = Return (JSON.strings FALLBACK_SCENARIOS))) /\
  (forall imageBase64 maskBase64 prompt, exists req,
     snd (editImage P this imageBase64 maskBase64 prompt w) = sends w [req] /\
     (failed (remote P (List.length (fetches w)) req) = true ->
      exists m, fst (editImage P this imageBase64 maskBase64 prompt w)
                = Throw (Error ("Failed to edit image: " ++ m)))).
Proof.
  intros H. repeat split; intros.
  - now apply expandPrompt_run.
  - now apply generateImage_run.
  - now apply recommendScenarios_run.
  - now apply editImage_run.
Qed.

(** C5.  [isAvailable] answers false exactly when none of the three
    sources (the configured value, the build-time variable, the process
    environment) holds a non-empty key; and then [expandPrompt],
    [generateImage] and [editImage] throw the missing-key error and leave
    the world as it was: no request goes out. *)
Theorem unavailable_without_credential (this : Service.t) :
  (isAvailable P this = false <->
     JS.truthy (LLMServiceConfig.apiKey (Service.config this)) = false /\
     JS.truthy (VITE_OPENROUTER_API_KEY P) = false /\
     JS.truthy (match process_env P with Some v => v | None => None end) = false) /\
  (isAvailable P this = false ->
   forall w,
     (forall basePrompt customContext,
        expandPrompt P this basePrompt customContext w
          = (Throw (Error API_KEY_NOT_FOUND), w)) /\
     (forall imageBase64 prompt options,
        generateImage P this imageBase64 prompt options w
          = (Throw (Error API_KEY_NOT_FOUND), w)) /\
     (forall imageBase64 maskBase64 prompt,
        editImage P this imageBase64 maskBase64 prompt w
          = (Throw (Error API_KEY_NOT_FOUND), w))).
Proof.
  split.
  - unfold isAvailable, resolveApiKey, JS.or.
    destruct (JS.truthy (LLMServiceConfig.apiKey (Service.config this))) eqn:A;
      cbn match; rewrite ?A.
    + split; [congruence | intros [? _]; discriminate].
    + destruct (JS.truthy (VITE_OPENROUTER_API_KEY P)) eqn:B; cbn match; rewrite ?B.
      * split; [congruence | intros [_ [? _]]; discriminate].
      * split; [intros C; now repeat split | now intros [_ [_ C]]].
  - intros H w. repeat split; intros.
    + now apply expandPrompt_unavailable.
    + now apply generateImage_unavailable.
    + now apply editImage_unavailable.
Qed.

End AdapterFacts.

(* ================================================================== *)
(** * The adapter: what is read from a response *)
(* ================================================================== *)

Section ResponseFacts.

Import OpenRouter.



Lemma lower_idempotent (c : ascii) : JS.lower (JS.lower c) = JS.lower c.
Proof.
  unfold JS.lower.
  destruct ((65 <=? nat_of_ascii c) && (nat_of_ascii c <=? 90))%nat eqn:E; [|now rewrite E].
  apply andb_true_iff in E. destruct E as [L U].
  apply Nat.leb_le in L. apply Nat.leb_le in U.
  rewrite nat_ascii_embedding by lia.
  replace ((65 <=? nat_of_ascii c + 32) && (nat_of_ascii c + 32 <=? 90))%nat with false;
    [reflexivity|].
  symmetry. apply andb_false_iff. right. apply Nat.leb_gt. lia.
Qed.











End ResponseFacts.

Section ReadingResponses.

Import OpenRouter.

Variable P : Platform.

(** A guarded body whose fetch is answered with an ok response goes on
    with that response. *)
Lemma guarded_ok {A : Type} (req : Request.t) (rest : Response.t -> M A)
    (handler : Thrown -> M A) (w : World) (r : Response.t) :
  remote P (List.length (fetches w)) req = Return r ->
  Response.ok r = true ->
  try_catch (response <- fetch P req ;; checkOk response ;; rest response) handler w
    = try_catch (rest r) handler (sends w [req]).
Proof.
  intros R Ok. unfold try_catch, bind, fetch, checkOk. cbn beta iota.
  fold (sends w [req]). rewrite R, Ok. reflexivity.
Qed.

Ltac answered :=
  cbv zeta;
  match goal with
  | |- exists _, snd (try_catch (bind (fetch P ?req)
                        (fun response => bind (checkOk response) (fun _ => @?rest response)))
                      ?h ?w) = _ /\ _ =>
      exists req;
      destruct (guarded_fetch P req rest h w) as [S F];
      [ | | split; [exact S|];
            pose proof (fun r => guarded_ok req rest h w r) as G ]
  end.

Ltac unchanged_after_fetch :=
  intros ? ?; unfold bind, settle, ret, throw;
  repeat match goal with
         | |- context [firstContentStrict ?d ?w0] =>
             let E := fresh "E" in
             pose proof (firstContentStrict_still d w0) as E;
             destruct (firstContentStrict d w0) as [[?|?] ?]; cbn in E; subst
         | |- context [match ?x with _ => _ end] => destruct x; cbn
         | |- context [if ?x then _ else _] => destruct x; cbn
         end;
  reflexivity.


(** C2, as amended.  With a credential configured, [recommendScenarios]
    sends one request and never throws.  It returns the fallback list when
    the fetch fails, when the body cannot be read, when the body holds no
    array of choices, and when the text between the first opening and
    the last closing bracket does not parse; it returns the empty list when the
    text holds no opening or no closing bracket; otherwise it returns
    what the bracketed text parses to. *)
Theorem recommendScenarios_outcomes (this : Service.t) (imageBase64 : string) (w : World) :
  isAvailable P this = true ->
  exists req,
    snd (recommendScenarios P this imageBase64 w) = sends w [req] /\
    (exists v, fst (recommendScenarios P this imageBase64 w) = Return v) /\
    (failed (remote P (List.length (fetches w)) req) = true ->
     fst (recommendScenarios P this imageBase64 w) = Return (JSON.strings FALLBACK_SCENARIOS)) /\
    forall r,
      remote P (List.length (fetches w)) req = Return r ->
      Response.ok r = true ->
      match Response.json r with
      | Throw _ =>
          fst (recommendScenarios P this imageBase64 w) = Return (JSON.strings FALLBACK_SCENARIOS)
      | Return body =>
          match Response.choices body with
          | None =>
              fst (recommendScenarios P this imageBase64 w)
                = Return (JSON.strings FALLBACK_SCENARIOS)
          | Some _ =>
              let jsonString := JS.trim (stripFences (JS.or_else (firstContent body) "[]")) in
              match JS.indexOf jsonString "[", JS.lastIndexOf jsonString "]" with
              | Some start, Some end_ =>
                  match JSON_parse P (JS.substring jsonString start (end_ + 1)) with
                  | Return v => fst (recommendScenarios P this imageBase64 w) = Return v
                  | Throw _ =>
                      fst (recommendScenarios P this imageBase64 w)
                        = Return (JSON.strings FALLBACK_SCENARIOS)
                  end
              | _, _ => fst (recommendScenarios P this imageBase64 w) = Return (JSON.strings [])
              end
          end
      end.
Proof.
  intros H. destruct (getApiKey_available P this H) as [k K].
  unfold recommendScenarios. rewrite (bind_run _ _ _ _ _ (K w)). answered.
  - unchanged_after_fetch.
  - reflexivity.
  - split; [|split].
    + (* no exception: the handler returns *)
      match goal with
      | |- exists v, fst (try_catch ?body ?h w) = Return v =>
          unfold try_catch; destruct (body w) as [[v|e] w1]; eexists; reflexivity
      end.
    + intros Fl. destruct (F Fl) as [e E]. rewrite E. reflexivity.
    + intros r R Ok. rewrite (G r R Ok). clear G F S.
      unfold try_catch, bind, settle, firstContentStrict, firstContent.
      destruct (Response.json r) as [body|e]; [|reflexivity].
      destruct (Response.choices body) as [[|c l]|]; cbn; try reflexivity.
      * destruct (JS.indexOf _ _); [|reflexivity].
        destruct (JS.lastIndexOf _ _); [|reflexivity].
        destruct (JSON_parse P _); reflexivity.
      * destruct (JS.indexOf _ _); [|reflexivity].
        destruct (JS.lastIndexOf _ _); [|reflexivity].
        destruct (JSON_parse P _); reflexivity.
Qed.

End ReadingResponses.

(* ================================================================== *)
(** * The service factory *)
(* ================================================================== *)

Section FactoryFacts.

Import LLMServiceFactory.

Lemma LLMProvider_eqb_eq (a b : LLMProvider) : LLMProvider_eqb a b = true <-> a = b.
Proof. destruct a, b; simpl; split; congruence. Qed.

Lemma get_set_same (l : list (LLMProvider * Service.t)) (p : LLMProvider) (s : Service.t) :
  get (set l p s) p = Some s.
Proof.
  unfold get. induction l as [|[q t] l IH]; simpl.
  - now rewrite (proj2 (LLMProvider_eqb_eq p p) eq_refl).
  - destruct (LLMProvider_eqb q p) eqn:E; simpl.
    + now rewrite (proj2 (LLMProvider_eqb_eq p p) eq_refl).
    + now rewrite E.
Qed.

Lemma get_set_other (l : list (LLMProvider * Service.t)) (p q : LLMProvider) (s : Service.t) :
  p <> q -> get (set l q s) p = get l p.
Proof.
  intros N. unfold get. induction l as [|[r t] l IH]; simpl.
  - destruct (LLMProvider_eqb q p) eqn:E; [|reflexivity].
    apply LLMProvider_eqb_eq in E. congruence.
  - destruct (LLMProvider_eqb r q) eqn:E; simpl.
    + apply LLMProvider_eqb_eq in E. subst r.
      destruct (LLMProvider_eqb q p) eqn:E'; [|reflexivity].
      apply LLMProvider_eqb_eq in E'. congruence.
    + destruct (LLMProvider_eqb r p); [reflexivity | exact IH].
Qed.

Lemma set_in (l : list (LLMProvider * Service.t)) (p q : LLMProvider) (s t : Service.t) :
  In (p, t) (set l q s) -> (p, t) = (q, s) \/ In (p, t) l.
Proof.
  induction l as [|[r u] l IH]; simpl.
  - intros [E|[]]; left; now symmetry.
  - destruct (LLMProvider_eqb r q); simpl.
    + intros [E|I]; [left; now symmetry | right; now right].
    + intros [E|I]; [right; now left |].
      destruct (IH I) as [E|I']; [now left | right; now right].
Qed.

Lemma get_in (l : list (LLMProvider * Service.t)) (p : LLMProvider) (s : Service.t) :
  get l p = Some s -> exists q, In (q, s) l /\ q = p.
Proof.
  unfold get. destruct (find _ l) as [[q t]|] eqn:F; [|discriminate].
  simpl. intros E; injection E as ->. apply find_some in F. destruct F as [I E].
  apply LLMProvider_eqb_eq in E. simpl in E. now exists q.
Qed.

(** What one [getService] does: a cached adapter comes back and nothing
    changes; otherwise one is constructed from the registered
    configuration and filed. *)
Lemma getService_run (provider : LLMProvider) (w : World) :
  match get (FactoryState.instances (factory w)) provider with
  | Some service => getService provider w = (Return service, w)
  | None =>
      let service := Service.make (allocated w) (FactoryState.config (factory w)) provider in
      getService provider w =
        (Return service,
         mkWorld (react w)
                 (FactoryState.make (set (FactoryState.instances (factory w)) provider service)
                                    (FactoryState.config (factory w)))
                 (S (allocated w)) (fetches w) (calls w) (timers w)
                 (clock_reads w) (random_reads w) (inflight w))
  end.
Proof.
  unfold getService, bind, read. cbn beta iota.
  destruct (get (FactoryState.instances (factory w)) provider); reflexivity.
Qed.

(** [getService] keeps the cache current, keeps the registered
    configuration, and afterwards the provider is cached. *)
Lemma getService_keeps (provider : LLMProvider) (w : World) :
  cache_current w ->
  exists service w1,
    getService provider w = (Return service, w1) /\
    cache_current w1 /\
    FactoryState.config (factory w1) = FactoryState.config (factory w) /\
    allocated w <= allocated w1 /\
    get (FactoryState.instances (factory w1)) provider = Some service /\
    Service.config service = FactoryState.config (factory w) /\
    Service.provider service = provider /\
    (forall p s, p <> provider ->
       get (FactoryState.instances (factory w)) p = Some s ->
       get (FactoryState.instances (factory w1)) p = Some s) /\
    (get (FactoryState.instances (factory w)) provider = None ->
       Service.oid service = allocated w) /\
    (forall s, get (FactoryState.instances (factory w)) provider = Some s ->
       service = s /\ w1 = w).
Proof.
  intros Inv. pose proof (getService_run provider w) as R.
  destruct (get (FactoryState.instances (factory w)) provider) as [service|] eqn:G.
  - exists service, w.
    destruct (get_in _ _ _ G) as [q [I ->]]. destruct (Inv _ _ I) as [Ic [Ip Io]].
    split; [exact R|]. split; [exact Inv|]. split; [reflexivity|].
    split; [lia|]. split; [exact G|]. split; [exact Ic|]. split; [exact Ip|].
    split; [auto|]. split; [discriminate|].
    intros s E. injection E as <-. now split.
  - cbv zeta in R. eexists. eexists. split; [exact R|]. cbn.
    split.
    { intros p t I. cbn in I. apply set_in in I. destruct I as [E|I].
      - injection E as -> ->. cbn. repeat split. lia.
      - destruct (Inv _ _ I) as [? [? ?]]. cbn. repeat split; auto. }
    split; [reflexivity|]. split; [lia|]. split; [apply get_set_same|].
    split; [reflexivity|]. split; [reflexivity|].
    split; [intros p s N Gp; now rewrite get_set_other|].
    split; [reflexivity|]. discriminate.
Qed.

(** Calls for other providers, or for the same one, leave a cached
    adapter where it is. *)
Lemma getServices_keep (others : list LLMProvider) :
  forall (w : World) (provider : LLMProvider) (service : Service.t),
    cache_current w ->
    get (FactoryState.instances (factory w)) provider = Some service ->
    exists w2,
      getServices others w = (Return tt, w2) /\
      cache_current w2 /\
      FactoryState.config (factory w2) = FactoryState.config (factory w) /\
      get (FactoryState.instances (factory w2)) provider = Some service.
Proof.
  induction others as [|q others IH]; intros w provider service Inv G; simpl.
  - exists w. split; [reflexivity|]. split; [exact Inv|]. split; [reflexivity | exact G].
  - destruct (getService_keeps q w Inv)
      as [s [w1 [R [Inv1 [C1 [_ [_ [_ [_ [Keep [_ Same]]]]]]]]]]].
    assert (get (FactoryState.instances (factory w1)) provider = Some service) as G1.
    { destruct (LLMProvider_eqb q provider) eqn:E.
      - apply LLMProvider_eqb_eq in E. subst q.
        destruct (Same service G) as [_ ->]. exact G.
      - apply Keep; [|exact G]. intros ->.
        now rewrite (proj2 (LLMProvider_eqb_eq q q) eq_refl) in E. }
    destruct (IH w1 provider service Inv1 G1) as [w2 [R2 [Inv2 [C2 G2]]]].
    exists w2. rewrite (bind_run _ _ _ _ _ R).
    split; [exact R2|]. split; [exact Inv2|]. split; [congruence | exact G2].
Qed.

(** C10.  While the cache is current, [getService] returns an adapter
    built with the registered configuration and keeps the cache current;
    asked again for the same provider, after any number of [getService]
    calls and no [registerConfig], it returns the identical adapter;
    [registerConfig] stores the new configuration and empties the cache,
    so that the next [getService], for any provider, constructs a new
    adapter that holds the new configuration. *)
Theorem factory_cache (w : World) (provider : LLMProvider) :
  cache_current w ->
  exists service w1,
    getService provider w = (Return service, w1) /\
    cache_current w1 /\
    Service.config service = FactoryState.config (factory w) /\
    Service.provider service = provider /\
    (forall others, exists w2,
       getServices others w1 = (Return tt, w2) /\
       cache_current w2 /\
       getService provider w2 = (Return service, w2)) /\
    (forall config, exists w3,
       registerConfig config w1 = (Return tt, w3) /\
       FactoryState.config (factory w3) = config /\
       FactoryState.instances (factory w3) = [] /\
       cache_current w3 /\
       forall p, exists fresh w4,
         getService p w3 = (Return fresh, w4) /\
         Service.config fresh = config /\
         Service.provider fresh = p /\
         Service.oid fresh <> Service.oid service /\
         cache_current w4).
Proof.
  intros Inv.
  destruct (getService_keeps provider w Inv)
    as [service [w1 [R [Inv1 [C1 [_ [G1 [Cs [Ps _]]]]]]]]].
  exists service, w1.
  split; [exact R|]. split; [exact Inv1|]. split; [exact Cs|]. split; [exact Ps|]. split.
  - intros others.
    destruct (getServices_keep others w1 provider service Inv1 G1) as [w2 [R2 [Inv2 [_ G2]]]].
    exists w2. split; [exact R2|]. split; [exact Inv2|].
    pose proof (getService_run provider w2) as R3. now rewrite G2 in R3.
  - intros config. eexists. split; [reflexivity|]. cbn.
    assert (cache_current (with_factory (fun _ => FactoryState.make [] config) w1)) as Inv3.
    { intros p s I. destruct I. }
    split; [reflexivity|]. split; [reflexivity|]. split; [exact Inv3|].
    intros p.
    destruct (getService_keeps p _ Inv3)
      as [fresh [w4 [R4 [Inv4 [_ [_ [_ [Cf [Pf [_ [New _]]]]]]]]]]].
    exists fresh, w4.
    split; [exact R4|]. split; [exact Cf|]. split; [exact Pf|]. split; [|exact Inv4].
    specialize (New eq_refl). cbn in New.
    destruct (get_in _ _ _ G1) as [q [I _]]. destruct (Inv1 _ _ I) as [_ [_ L]]. lia.
Qed.

End FactoryFacts.

(* ================================================================== *)
(** * The batch loop *)
(* ================================================================== *)

Section LoopFacts.

Import App.

Variable P : Platform.

(** ** What the awaited calls leave alone *)

Lemma sends_page (w : World) (reqs : list Request.t) :
  react (sends w reqs) = react w /\
  calls (sends w reqs) = calls w /\
  inflight (sends w reqs) = inflight w.
Proof. repeat split. Qed.

Lemma adapter_expand_frame (this : Service.t) (b c : string) (w : World) :
  exists reqs, snd (OpenRouter.expandPrompt P this b c w) = sends w reqs.
Proof.
  destruct (OpenRouter.isAvailable P this) eqn:A.
  - destruct (expandPrompt_run P this b c w A) as [req [S _]]. now exists [req].
  - rewrite (expandPrompt_unavailable P this b c w A). exists []. now rewrite sends_nil.
Qed.

Lemma adapter_generate_frame (this : Service.t) (i p : string)
    (o : option ImageGenerationOptions.t) (w : World) :
  exists reqs, snd (OpenRouter.generateImage P this i p o w) = sends w reqs.
Proof.
  destruct (OpenRouter.isAvailable P this) eqn:A.
  - destruct (generateImage_run P this i p o w A) as [req [S _]]. now exists [req].
  - rewrite (generateImage_unavailable P this i p o w A). exists []. now rewrite sends_nil.
Qed.

Lemma getService_frame (provider : LLMProvider) (w : World) :
  exists service w1,
    LLMServiceFactory.getService provider w = (Return service, w1) /\
    react w1 = react w /\ calls w1 = calls w /\ inflight w1 = inflight w.
Proof.
  pose proof (getService_run provider w) as R.
  destruct (LLMServiceFactory.get _ provider) as [s|].
  - exists s, w. now repeat split.
  - cbv zeta in R. eexists. eexists. split; [exact R|]. now repeat split.
Qed.

Lemma expandPrompt_frame (b : string) (provider : LLMProvider) (c : string) (w : World) :
  react (snd (Facade.expandPrompt P b provider c w)) = react w /\
  calls (snd (Facade.expandPrompt P b provider c w)) = calls w /\
  inflight (snd (Facade.expandPrompt P b provider c w)) = inflight w.
Proof.
  unfold Facade.expandPrompt.
  destruct (getService_frame provider w) as [s [w1 [R [Hr [Hc Ht]]]]].
  rewrite (bind_run _ _ _ _ _ R).
  destruct (adapter_expand_frame s b c w1) as [reqs ->]. cbn. now repeat split.
Qed.

Lemma generateProductScene_frame (i p : string) (provider : LLMProvider)
    (o : option ImageGenerationOptions.t) (w : World) :
  react (snd (Facade.generateProductScene P i p provider o w)) = react w /\
  calls (snd (Facade.generateProductScene P i p provider o w)) = calls w /\
  inflight (snd (Facade.generateProductScene P i p provider o w)) = inflight w.
Proof.
  unfold Facade.generateProductScene.
  destruct (getService_frame provider w) as [s [w1 [R [Hr [Hc Ht]]]]].
  rewrite (bind_run _ _ _ _ _ R).
  destruct (adapter_generate_frame s i p o w1) as [reqs ->]. cbn. now repeat split.
Qed.

Lemma imagePrompts_app (a b : list CallRecord) :
  imagePrompts (a ++ b)%list = (imagePrompts a ++ imagePrompts b)%list.
Proof.
  induction a as [|r a IH]; simpl; [reflexivity|].
  destruct (call r); simpl; now rewrite IH.
Qed.

Lemma expandedBases_app (a b : list CallRecord) :
  expandedBases (a ++ b)%list = (expandedBases a ++ expandedBases b)%list.
Proof.
  induction a as [|r a IH]; simpl; [reflexivity|].
  destruct (call r); simpl; now rewrite IH.
Qed.

Lemma bind_update {B : Type} (f : World -> World) (k : unit -> M B) (w : World) :
  bind (update f) k w = k tt (f w).
Proof. reflexivity. Qed.

Lemma bind_read {A B : Type} (f : World -> A) (k : A -> M B) (w : World) :
  bind (read f) k w = k (f w) w.
Proof. reflexivity. Qed.

Lemma bind_ret {A B : Type} (a : A) (k : A -> M B) (w : World) :
  bind (ret a) k w = k a w.
Proof. reflexivity. Qed.

Lemma bind_bind {A B C : Type} (m : M A) (f : A -> M B) (g : B -> M C) (w : World) :
  bind (bind m f) g w = bind m (fun x => bind (f x) g) w.
Proof. unfold bind. destruct (m w) as [[a|e] w']; reflexivity. Qed.

(** Two computations that start alike and go on alike are alike. *)
Lemma bind_cong {A B : Type} (m m' : M A) (k k' : A -> M B) (w : World) :
  m w = m' w ->
  (forall a w', m' w = (Return a, w') -> k a w' = k' a w') ->
  bind m k w = bind m' k' w.
Proof.
  intros E K. unfold bind. rewrite E.
  destruct (m' w) as [[a|e] w'] eqn:R; [now apply K | reflexivity].
Qed.

Lemma quietly_aside : aside quietly.
Proof. intros n w. now repeat split. Qed.

(** A timer that fires while a call is pending leaves the batch alone. *)
Lemma timerFires_aside : aside (fun _ => timerFires).
Proof.
  intros n w. unfold timerFires. rewrite bind_read.
  destruct (timers w); now repeat split.
Qed.

(** ** Runs that are left alone *)

Section LeftAlone.

Variable meanwhile : nat -> M unit.

Hypothesis Aside : aside meanwhile.

(** An awaited call that leaves the page alone adds its record, and
    nothing else, to the calls, and leaves the results alone. *)
Lemma await_run (c : Call) (m : M string) (w : World) :
  (react (snd (m w)) = react w /\ calls (snd (m w)) = calls w /\
   inflight (snd (m w)) = inflight w) ->
  exists r w1,
    await meanwhile c m w = (r, w1) /\
    React.generatedImages (react w1) = React.generatedImages (react w) /\
    calls w1 = (calls w ++ [Build_CallRecord
                              (ProcessingState.step (React.processingState (react w)))
                              (inflight w) c r])%list /\
    inflight w1 = inflight w.
Proof.
  intros [Hr [Hc Hi]]. unfold await. destruct (m w) as [r made] eqn:E. cbn in Hr, Hc, Hi.
  destruct (Aside (List.length (calls made)) (issued made)) as [Ac [Ai Ag]].
  destruct (meanwhile (List.length (calls made)) (issued made)) as [x later].
  cbn in Ac, Ai, Ag. exists r. eexists. split; [reflexivity|]. cbn.
  split; [now rewrite Ag, Hr|].
  split; [now rewrite Ac, Hc|].
  now rewrite Ai, Hi.
Qed.

(** ** One round of the loop *)

(** A round for a preset that was found makes an expand call with the
    description of the preset and, if that returned, an image call with
    what it returned; each is made in turn.  If both return, one record
    is put in front of the results, labelled with the name of the preset
    and holding the prompt that the image call was given.  Otherwise the
    round throws, the call that threw is the last one made, and the
    results are as they were. *)
Lemma generateOne_spec (captured : React.t) (imageToProcess : string)
    (completed total : nat) (preset : ScenarioPreset.t) (w : World) :
  exists r w1 news,
    generateOne P meanwhile captured imageToProcess completed total preset w = (r, w1) /\
    inflight w1 = inflight w /\
    calls w1 = (calls w ++ news)%list /\
    Forall (in_turn w) news /\
    expandedBases news = [ScenarioPreset.description preset] /\
    match r with
    | Return _ =>
        exists image,
          React.generatedImages (react w1) = image :: React.generatedImages (react w) /\
          GeneratedImage.vibe image = ScenarioPreset.name preset /\
          imagePrompts news = [GeneratedImage.prompt image] /\
          Forall (fun c => threw c = false) news
    | Throw _ =>
        React.generatedImages (react w1) = React.generatedImages (react w) /\
        exists front last,
          news = (front ++ [last])%list /\
          threw last = true /\
          Forall (fun c => threw c = false) front /\
          imagePrompts front = []
    end.
Proof.
  unfold generateOne, setProcessingState. rewrite bind_update.
  match goal with
  | |- context [bind (await _ ?c ?m) _ ?w0] =>
      destruct (await_run c m w0 (expandPrompt_frame _ _ _ w0))
        as [r1 [w1 [R1 [Hg1 [Hc1 Hi1]]]]]
  end.
  cbn in Hg1, Hc1, Hi1.
  destruct r1 as [expandedPrompt|e].
  - rewrite (bind_run _ _ _ _ _ R1). rewrite bind_update.
    match goal with
    | |- context [bind (await _ ?c ?m) _ ?w2] =>
        destruct (await_run c m w2 (generateProductScene_frame _ _ _ _ w2))
          as [r2 [w3 [R2 [Hg2 [Hc2 Hi2]]]]]
    end.
    cbn in Hg2, Hc2, Hi2. rewrite Hi1 in Hc2.
    destruct r2 as [generatedImageUrl|e].
    + rewrite (bind_run _ _ _ _ _ R2).
      unfold bind, Date_now, Math_random_toString, setGeneratedImages, update.
      cbn beta iota.
      eexists. eexists. eexists. split; [reflexivity|]. cbn.
      split; [now rewrite Hi2, Hi1|].
      split; [rewrite Hc2, Hc1, <- app_assoc; reflexivity|].
      split; [repeat constructor|].
      split; [reflexivity|].
      eexists. split; [rewrite Hg2, Hg1; reflexivity|].
      split; [reflexivity|]. split; [reflexivity|]. repeat constructor.
    + rewrite (bind_throws _ _ _ _ _ R2).
      eexists. eexists. eexists. split; [reflexivity|].
      split; [now rewrite Hi2, Hi1|].
      split; [rewrite Hc2, Hc1, <- app_assoc; reflexivity|].
      split; [repeat constructor|].
      split; [reflexivity|].
      split; [now rewrite Hg2, Hg1|].
      eexists. eexists. split; [reflexivity|]. split; [reflexivity|].
      split; [repeat constructor | reflexivity].
  - rewrite (bind_throws _ _ _ _ _ R1).
    eexists. eexists. eexists.
    split; [reflexivity|].
    split; [exact Hi1|].
    split; [exact Hc1|].
    split; [repeat constructor|].
    split; [reflexivity|].
    split; [exact Hg1|].
    exists []. eexists.
    split; [reflexivity|]. split; [reflexivity|]. split; [constructor | reflexivity].
Qed.

Lemma in_turn_same (w w1 : World) (news : list CallRecord) :
  inflight w1 = inflight w -> Forall (in_turn w1) news -> Forall (in_turn w) news.
Proof.
  intros E. apply Forall_impl. intros c [B I]. split; [exact B | now rewrite I].
Qed.

(** ** The loop *)

(** The loop makes its calls in turn and puts one record in front of the
    results per round that returned.  If it returns, there was one round
    per resolved preset, in order, and no call threw.  If it throws, the
    rounds before the failing one are the ones that left a record, the
    call that threw is the last call made, and expand calls were made for
    the presets up to the failing one and for no other. *)
Lemma generateEach_spec (captured : React.t) (imageToProcess : string) (total : nat) :
  forall (presetIds : list string) (completed : nat) (w : World),
  exists r w1 items news,
    generateEach P meanwhile captured imageToProcess total presetIds completed w = (r, w1) /\
    inflight w1 = inflight w /\
    calls w1 = (calls w ++ news)%list /\
    React.generatedImages (react w1)
      = (rev items ++ React.generatedImages (react w))%list /\
    Forall (in_turn w) news /\
    match r with
    | Return _ =>
        map GeneratedImage.vibe items
          = map ScenarioPreset.name (resolve (displayPresets captured) presetIds) /\
        imagePrompts news = map GeneratedImage.prompt items /\
        expandedBases news
          = map ScenarioPreset.description (resolve (displayPresets captured) presetIds) /\
        Forall (fun c => threw c = false) news
    | Throw _ =>
        exists done failing rest front last,
          resolve (displayPresets captured) presetIds = (done ++ failing :: rest)%list /\
          map GeneratedImage.vibe items = map ScenarioPreset.name done /\
          news = (front ++ [last])%list /\
          threw last = true /\
          Forall (fun c => threw c = false) front /\
          imagePrompts front = map GeneratedImage.prompt items /\
          expandedBases news = map ScenarioPreset.description (done ++ [failing])%list
    end.
Proof.
  induction presetIds as [|presetId rest IH]; intros completed w.
  - exists (Return tt), w, [], []. cbn.
    split; [reflexivity|]. split; [reflexivity|]. split; [now rewrite app_nil_r|].
    split; [reflexivity|]. split; [constructor|]. repeat split. constructor.
  - cbn [generateEach resolve].
    destruct (find (fun p => ScenarioPreset.id p =? presetId) (displayPresets captured))
      as [preset|].
    + destruct (generateOne_spec captured imageToProcess (completed + 1) total preset w)
        as [r1 [w1 [news1 [R1 [Ht1 [Hc1 [Hb1 [He1 Hr1]]]]]]]].
      destruct r1 as [[]|e].
      * (* the round returned: the loop goes on *)
        destruct Hr1 as [image [Hi1 [Hv1 [Hp1 Hn1]]]].
        destruct (IH (completed + 1) w1)
          as [r2 [w2 [items2 [news2 [R2 [Ht2 [Hc2 [Hi2 [Hb2 Hr2]]]]]]]]].
        apply (in_turn_same w w1 news2 Ht1) in Hb2.
        exists r2, w2, (image :: items2), (news1 ++ news2)%list.
        rewrite (bind_run _ _ _ _ _ R1).
        split; [exact R2|]. split; [congruence|].
        split; [now rewrite Hc2, Hc1, app_assoc|].
        split; [rewrite Hi2, Hi1; cbn; now rewrite <- app_assoc|].
        split; [now apply Forall_app|].
        destruct r2 as [[]|e2].
        -- destruct Hr2 as [Hv2 [Hp2 [He2 Hn2]]]. cbn.
           split; [now rewrite Hv1, Hv2|].
           split; [now rewrite imagePrompts_app, Hp1, Hp2|].
           split; [now rewrite expandedBases_app, He1, He2|].
           now apply Forall_app.
        -- destruct Hr2 as [done [failing [rest' [front [last
             [Hres [Hv2 [Hn [Ht [Hf [Hp2 He2]]]]]]]]]]].
           exists (preset :: done), failing, rest', (news1 ++ front)%list, last.
           split; [now rewrite Hres|].
           split; [cbn; now rewrite Hv1, Hv2|].
           split; [now rewrite Hn, app_assoc|].
           split; [exact Ht|].
           split; [now apply Forall_app|].
           split; [now rewrite imagePrompts_app, Hp1, Hp2|].
           rewrite expandedBases_app, He1, He2. reflexivity.
      * (* the round threw: the loop ends *)
        destruct Hr1 as [Hi1 [front [last [Hn [Ht [Hf Hp]]]]]].
        exists (Throw e), w1, [], news1.
        rewrite (bind_throws _ _ _ _ _ R1).
        split; [reflexivity|]. split; [exact Ht1|]. split; [exact Hc1|].
        split; [exact Hi1|]. split; [exact Hb1|].
        exists [], preset, (resolve (displayPresets captured) rest), front, last.
        split; [reflexivity|]. split; [reflexivity|]. split; [exact Hn|].
        split; [exact Ht|]. split; [exact Hf|]. split; [exact Hp | exact He1].
    + apply IH.
Qed.

(** ** A whole run *)

(** A run of [handleGenerate] on a page with a file and a preview. *)
Lemma handleGenerate_spec (w : World) (file : File) :
  React.selectedFile (react w) = Some file ->
  JS.truthy (React.previewUrl (react w)) = true ->
  exists w1 items news,
    handleGenerate P meanwhile w = (Return tt, w1) /\
    calls w1 = (calls w ++ news)%list /\
    React.generatedImages (react w1)
      = (rev items ++ React.generatedImages (react w))%list /\
    Forall (in_turn w) news /\
    ((Forall (fun c => threw c = false) news /\
      map GeneratedImage.vibe items
        = map ScenarioPreset.name
            (resolve (displayPresets (react w)) (React.selectedPresetIds (react w))) /\
      imagePrompts news = map GeneratedImage.prompt items)
     \/
     (exists front last,
        news = (front ++ [last])%list /\
        threw last = true /\
        Forall (fun c => threw c = false) front /\
        React.processingState (react w1) = ProcessingState.make ERROR ERROR_MESSAGE /\
        ((exists f, call last = CallRemoveWhiteBackground f) \/
         (exists done failing rest,
            resolve (displayPresets (react w)) (React.selectedPresetIds (react w))
              = (done ++ failing :: rest)%list /\
            map GeneratedImage.vibe items = map ScenarioPreset.name done /\
            expandedBases news
              = map ScenarioPreset.description (done ++ [failing])%list)))).
Proof.
  intros Hfile Hpreview.
  destruct (truthy_some _ Hpreview) as [previewUrl [Hp Hne]].
  unfold handleGenerate. rewrite bind_read. rewrite Hfile, Hp, Hne. cbn [orb].
  destruct (List.length (React.selectedPresetIds (react w)) =? 0)%nat eqn:L.
  { (* nothing selected: nothing happens *)
    apply Nat.eqb_eq in L. apply length_zero_iff_nil in L.
    exists w, [], []. split; [reflexivity|]. split; [now rewrite app_nil_r|].
    split; [reflexivity|]. split; [constructor|]. left. rewrite L.
    repeat split. constructor. }
  clear L. unfold try_catch.
  destruct (React.removeBg (react w)).
  - (* the background is removed first *)
    rewrite bind_bind. unfold setProcessingState at 1. rewrite bind_update.
    match goal with
    | |- context [bind (await _ ?c ?m) _ ?w0] =>
        destruct (await_run c m w0) as [r0 [w0' [R0 [Hr0 [Hc0 Ht0]]]]];
          [now repeat split|]
    end.
    cbn in Hr0, Hc0, Ht0.
    destruct r0 as [imageToProcess|e].
    + rewrite (bind_run _ _ _ _ _ R0).
      destruct (generateEach_spec (react w) imageToProcess
                  (List.length (React.selectedPresetIds (react w)))
                  (React.selectedPresetIds (react w)) 0 w0')
        as [r [w1 [items [news [R [Ht [Hc [Hi [Hb Hr]]]]]]]]].
      apply (in_turn_same w w0' news Ht0) in Hb.
      destruct r as [[]|e].
      * rewrite (bind_run _ _ _ _ _ R). cbn.
        destruct Hr as [Hv [Hpr [_ Hn]]].
        eexists. exists items. eexists. split; [reflexivity|]. cbn.
        split; [rewrite Hc, Hc0, <- app_assoc; reflexivity|].
        split; [now rewrite Hi, Hr0|].
        split; [constructor; [now split | exact Hb]|].
        left. split; [constructor; [reflexivity | exact Hn]|].
        split; [exact Hv | exact Hpr].
      * rewrite (bind_throws _ _ _ _ _ R). cbn.
        destruct Hr as [done [failing [rest [front [last [Hres [Hv [Hn [Hth [Hf [Hpr He]]]]]]]]]]].
        eexists. exists items. eexists. split; [reflexivity|]. cbn.
        split; [rewrite Hc, Hc0, <- app_assoc; reflexivity|].
        split; [now rewrite Hi, Hr0|].
        split; [constructor; [now split | exact Hb]|].
        right. eexists (_ :: front). exists last.
        split; [rewrite Hn; reflexivity|].
        split; [exact Hth|].
        split; [constructor; [reflexivity | exact Hf]|].
        split; [reflexivity|].
        right. exists done, failing, rest.
        split; [exact Hres|]. split; [exact Hv|]. cbn. exact He.
    + rewrite (bind_throws _ _ _ _ _ R0). cbn.
      eexists. exists []. eexists. split; [reflexivity|]. cbn.
      split; [rewrite Hc0; reflexivity|].
      split; [now rewrite Hr0|].
      split; [repeat constructor|].
      right. exists [].
      eexists. split; [reflexivity|]. split; [reflexivity|]. split; [constructor|].
      split; [reflexivity|].
      left. eexists. reflexivity.
  - (* the preview is used as it is *)
    rewrite bind_ret.
    destruct (generateEach_spec (react w) previewUrl
                (List.length (React.selectedPresetIds (react w)))
                (React.selectedPresetIds (react w)) 0 w)
      as [r [w1 [items [news [R [Ht [Hc [Hi [Hb Hr]]]]]]]]].
    destruct r as [[]|e].
    + rewrite (bind_run _ _ _ _ _ R). cbn.
      destruct Hr as [Hv [Hpr [_ Hn]]].
      eexists. exists items, news. split; [reflexivity|]. cbn.
      split; [exact Hc|]. split; [exact Hi|]. split; [exact Hb|].
      left. split; [exact Hn|]. split; [exact Hv | exact Hpr].
    + rewrite (bind_throws _ _ _ _ _ R). cbn.
      destruct Hr as [done [failing [rest [front [last [Hres [Hv [Hn [Hth [Hf [Hpr He]]]]]]]]]]].
      eexists. exists items, news. split; [reflexivity|]. cbn.
      split; [exact Hc|]. split; [exact Hi|]. split; [exact Hb|].
      right. exists front, last.
      split; [exact Hn|]. split; [exact Hth|]. split; [exact Hf|].
      split; [reflexivity|].
      right. exists done, failing, rest.
      split; [exact Hres|]. split; [exact Hv | exact He].
Qed.

(** C1.  In a run of the batch in which every awaited call returned,
    and which whatever else the page did meanwhile left alone, the
    records of the run stand in front of the results in the reverse of
    the order of the selection: one per resolved preset, labelled with
    the name of its preset and holding the prompt that was given to the
    image call of its round. *)
Theorem batch_results_in_order (w : World) (file : File) (news : list CallRecord) :
  React.selectedFile (react w) = Some file ->
  JS.truthy (React.previewUrl (react w)) = true ->
  calls (snd (handleGenerate P meanwhile w)) = (calls w ++ news)%list ->
  Forall (fun c => threw c = false) news ->
  exists items,
    React.generatedImages (react (snd (handleGenerate P meanwhile w)))
      = (rev items ++ React.generatedImages (react w))%list /\
    map GeneratedImage.vibe items
      = map ScenarioPreset.name
          (resolve (displayPresets (react w)) (React.selectedPresetIds (react w))) /\
    map GeneratedImage.prompt items = imagePrompts news.
Proof.
  intros Hfile Hpreview Hcalls Hall.
  destruct (handleGenerate_spec w file Hfile Hpreview)
    as [w1 [items [news' [R [Hc [Hi [_ Hcase]]]]]]].
  rewrite R in *. cbn [snd] in *.
  assert (news' = news) as -> by (apply (app_inv_head (calls w)); congruence).
  destruct Hcase as [[_ [Hv Hp]] | [front [last [Hn [Hth _]]]]].
  - exists items. split; [exact Hi|]. split; [exact Hv | now symmetry].
  - exfalso. rewrite Hn in Hall. apply Forall_app in Hall. destruct Hall as [_ Hl].
    inversion Hl as [|? ? Hlast _]. congruence.
Qed.

(** C7.  In a run of the batch in which an expand call or an image call
    threw, and which whatever else the page did meanwhile left alone, the
    step ends as ERROR with the generic message; that call is the last
    call of the run, expand calls were made for the presets up to the
    failing one and for none after it, and the records of the presets
    before the failing one stand in front of the results, which are
    otherwise as they were. *)
Theorem batch_failure_stops (w : World) (file : File) (news : list CallRecord)
    (failing_call : CallRecord) :
  React.selectedFile (react w) = Some file ->
  JS.truthy (React.previewUrl (react w)) = true ->
  calls (snd (handleGenerate P meanwhile w)) = (calls w ++ news)%list ->
  In failing_call news ->
  threw failing_call = true ->
  (forall f, call failing_call <> CallRemoveWhiteBackground f) ->
  React.processingState (react (snd (handleGenerate P meanwhile w)))
    = ProcessingState.make ERROR ERROR_MESSAGE /\
  exists items done failing rest front,
    news = (front ++ [failing_call])%list /\
    Forall (fun c => threw c = false) front /\
    resolve (displayPresets (react w)) (React.selectedPresetIds (react w))
      = (done ++ failing :: rest)%list /\
    expandedBases news = map ScenarioPreset.description (done ++ [failing])%list /\
    React.generatedImages (react (snd (handleGenerate P meanwhile w)))
      = (rev items ++ React.generatedImages (react w))%list /\
    map GeneratedImage.vibe items = map ScenarioPreset.name done.
Proof.
  intros Hfile Hpreview Hcalls Hin Hthrew Hkind.
  destruct (handleGenerate_spec w file Hfile Hpreview)
    as [w1 [items [news' [R [Hc [Hi [_ Hcase]]]]]]].
  rewrite R in *. cbn [snd] in *.
  assert (news' = news) as -> by (apply (app_inv_head (calls w)); congruence).
  destruct Hcase as [[Hall _] | [front [last [Hn [Hth [Hf [Hs Hwhich]]]]]]].
  - exfalso. rewrite Forall_forall in Hall. specialize (Hall _ Hin). congruence.
  - assert (failing_call = last) as ->.
    { rewrite Hn in Hin. apply in_app_or in Hin. destruct Hin as [I | [E | []]].
      - rewrite Forall_forall in Hf. specialize (Hf _ I). congruence.
      - now symmetry. }
    split; [exact Hs|].
    destruct Hwhich as [[f Hbg] | [done [failing [rest [Hres [Hv He]]]]]].
    + exfalso. exact (Hkind f Hbg).
    + exists items, done, failing, rest, front.
      split; [exact Hn|]. split; [exact Hf|]. split; [exact Hres|].
      split; [exact He|]. split; [exact Hi | exact Hv].
Qed.

(** Every call that a batch started by a click awaits is made in turn:
    under a busy step, and with no call pending that was not pending
    before the click. *)
Lemma batch_calls_in_turn (w : World) (news : list CallRecord) :
  calls (snd (clickGenerate P meanwhile w)) = (calls w ++ news)%list ->
  Forall (in_turn w) news.
Proof.
  intros Hcalls.
  assert (calls w = (calls w ++ [])%list) as Nil by now rewrite app_nil_r.
  unfold clickGenerate in Hcalls. rewrite bind_read in Hcalls.
  destruct (generateDisabled (react w)) eqn:D.
  - cbn in Hcalls. rewrite Nil in Hcalls at 1.
    apply app_inv_head in Hcalls. subst news. constructor.
  - destruct (React.selectedFile (react w)) as [file|] eqn:Hfile.
    + assert (JS.truthy (React.previewUrl (react w)) = true) as Hpreview.
      { unfold generateDisabled in D. apply orb_false_iff in D. destruct D as [D _].
        apply orb_false_iff in D. destruct D as [D _]. now apply negb_false_iff in D. }
      destruct (handleGenerate_spec w file Hfile Hpreview)
        as [w1 [items [news' [R [Hc [_ [Hb _]]]]]]].
      rewrite R in Hcalls. cbn [snd] in Hcalls.
      assert (news' = news) as -> by (apply (app_inv_head (calls w)); congruence).
      exact Hb.
    + unfold handleGenerate in Hcalls. rewrite bind_read, Hfile in Hcalls.
      cbn in Hcalls. rewrite Nil in Hcalls at 1.
      apply app_inv_head in Hcalls. subst news. constructor.
Qed.

End LeftAlone.

(** ** Clicks while a batch runs *)

(** While the step is none of IDLE, COMPLETED and ERROR the Generate
    button is disabled and a click on it changes nothing: no batch
    starts, no request goes out, no result is added. *)
Lemma generate_blocked_while_busy (meanwhile : nat -> M unit) (w : World) :
  busy (ProcessingState.step (React.processingState (react w))) = true ->
  generateDisabled (react w) = true /\ clickGenerate P meanwhile w = (Return tt, w).
Proof.
  intros B. assert (generateDisabled (react w) = true) as D.
  { unfold generateDisabled. rewrite B. now rewrite !orb_true_r. }
  split; [exact D|]. unfold clickGenerate. rewrite bind_read. now rewrite D.
Qed.

Section Ignored.

Variable meanwhile : nat -> M unit.

(** What the page does meanwhile does nothing under a busy step. *)
Hypothesis Blocked :
  forall n w,
    busy (ProcessingState.step (React.processingState (react w))) = true ->
    snd (meanwhile n w) = w.

Lemma await_ignored (c : Call) (m : M string) (w : World) :
  busy (ProcessingState.step (React.processingState (react w))) = true ->
  react (snd (m w)) = react w ->
  await meanwhile c m w = await quietly c m w.
Proof.
  intros B Hr. unfold await. destruct (m w) as [r made]. cbn in Hr.
  assert (snd (meanwhile (List.length (calls made)) (issued made)) = issued made) as E.
  { apply Blocked. cbn. now rewrite Hr. }
  destruct (meanwhile (List.length (calls made)) (issued made)) as [x later].
  cbn in E. now rewrite E.
Qed.

Lemma generateOne_ignored (captured : React.t) (imageToProcess : string)
    (completed total : nat) (preset : ScenarioPreset.t) (w : World) :
  generateOne P meanwhile captured imageToProcess completed total preset w
    = generateOne P quietly captured imageToProcess completed total preset w.
Proof.
  unfold generateOne, setProcessingState. rewrite !bind_update.
  apply bind_cong.
  - apply await_ignored; [reflexivity | apply expandPrompt_frame].
  - intros expandedPrompt w1 _. rewrite !bind_update.
    apply bind_cong; [|reflexivity].
    apply await_ignored; [reflexivity | apply generateProductScene_frame].
Qed.

Lemma generateEach_ignored (captured : React.t) (imageToProcess : string) (total : nat) :
  forall (presetIds : list string) (completed : nat) (w : World),
    generateEach P meanwhile captured imageToProcess total presetIds completed w
      = generateEach P quietly captured imageToProcess total presetIds completed w.
Proof.
  induction presetIds as [|presetId rest IH]; intros completed w; [reflexivity|].
  cbn [generateEach].
  destruct (find (fun p => ScenarioPreset.id p =? presetId) (displayPresets captured));
    [|apply IH].
  apply bind_cong; [apply generateOne_ignored | intros; apply IH].
Qed.

(** A batch during which everything else the page does is blocked runs
    as a batch that is left alone. *)
Lemma handleGenerate_ignored (w : World) :
  handleGenerate P meanwhile w = handleGenerate P quietly w.
Proof.
  unfold handleGenerate. rewrite !bind_read.
  destruct (React.selectedFile (react w)) as [file|]; [|reflexivity].
  destruct (React.previewUrl (react w)) as [previewUrl|]; [|reflexivity].
  destruct ((previewUrl =? "") || (List.length (React.selectedPresetIds (react w)) =? 0)%nat);
    [reflexivity|].
  unfold try_catch.
  match goal with
  | |- match ?a w with _ => _ end = match ?b w with _ => _ end =>
      assert (a w = b w) as E; [|now rewrite E]
  end.
  apply bind_cong.
  - destruct (React.removeBg (react w)); [|reflexivity].
    unfold setProcessingState. rewrite !bind_update.
    apply await_ignored; reflexivity.
  - intros imageToProcess w1 _.
    apply bind_cong; [apply generateEach_ignored | reflexivity].
Qed.

End Ignored.

(** Clicks on the Generate button while a call of a batch is pending
    find the button disabled: the batch runs as if they had not been
    made. *)
Lemma clicks_meanwhile_ignored (others : nat -> nat -> M unit) (w : World) :
  handleGenerate P (fun n => clickGenerate P (others n)) w = handleGenerate P quietly w.
Proof.
  apply handleGenerate_ignored. intros n w' B.
  now rewrite (proj2 (generate_blocked_while_busy (others n) w' B)).
Qed.

End LoopFacts.

(* ================================================================== *)
(** * The properties on concrete pages *)
(* ================================================================== *)

Lemma unavailable_without_credential_witness :
  OpenRouter.isAvailable keyless exampleService = false /\
  OpenRouter.expandPrompt keyless exampleService "a marble countertop" "" initialWorld
    = (Throw (Error OpenRouter.API_KEY_NOT_FOUND), initialWorld).
Proof.
  split; [reflexivity|].
  apply (proj1 (proj2 (unavailable_without_credential keyless exampleService)
                  eq_refl initialWorld)).
Defined.

Lemma one_request_per_operation_witness :
  OpenRouter.isAvailable offline exampleService = true /\
  exists req,
    snd (OpenRouter.expandPrompt offline exampleService "a marble countertop" "" initialWorld)
      = sends initialWorld [req] /\
    exists m,
      fst (OpenRouter.expandPrompt offline exampleService "a marble countertop" "" initialWorld)
        = Throw (Error ("Failed to expand prompt: " ++ m)).
Proof.
  split; [reflexivity|].
  destruct (proj1 (one_request_per_operation offline exampleService initialWorld eq_refl)
              "a marble countertop" "") as [req [S F]].
  exists req. split; [exact S | exact (F eq_refl)].
Defined.



Lemma recommendScenarios_outcomes_witness :
  OpenRouter.isAvailable (answering [textChoice "[sorry, no scenarios today]"])
    exampleService = true /\
  fst (OpenRouter.recommendScenarios (answering [textChoice "[sorry, no scenarios today]"])
         exampleService "data:image/png;base64,QUJD" initialWorld)
    = Return (JSON.strings OpenRouter.FALLBACK_SCENARIOS).
Proof.
  split; [reflexivity|].
  destruct (recommendScenarios_outcomes
              (answering [textChoice "[sorry, no scenarios today]"])
              exampleService "data:image/png;base64,QUJD" initialWorld eq_refl)
    as [req [_ [_ [_ F]]]].
  exact (F _ eq_refl eq_refl).
Defined.

(** C2, as stated, fails: a refusal in prose, which is no JSON, comes
    back as the empty list and not as the fallback; so does a response
    without any text. *)
Lemma recommendScenarios_counterexample :
  let refusal := "I'm sorry, but I can't help with that request." in
  JSONText.parse refusal = Throw (Error "Unexpected token in JSON") /\
  fst (OpenRouter.recommendScenarios (answering [textChoice refusal]) exampleService
         "data:image/png;base64,QUJD" initialWorld)
    = Return (JSON.strings []) /\
  fst (OpenRouter.recommendScenarios (answering []) exampleService
         "data:image/png;base64,QUJD" initialWorld)
    = Return (JSON.strings []) /\
  JSON.strings [] <> JSON.strings OpenRouter.FALLBACK_SCENARIOS.
Proof.
  cbv zeta. split; [vm_compute; reflexivity|]. split; [vm_compute; reflexivity|].
  split; [vm_compute; reflexivity | discriminate].
Qed.

Lemma factory_cache_witness :
  cache_current initialWorld /\
  exists service w1,
    LLMServiceFactory.getService GEMINI_3_PRO_PREVIEW initialWorld = (Return service, w1) /\
    LLMServiceFactory.getService GEMINI_3_PRO_PREVIEW w1 = (Return service, w1).
Proof.
  assert (cache_current initialWorld) as Inv by (intros p s I; destruct I).
  split; [exact Inv|].
  destruct (factory_cache initialWorld GEMINI_3_PRO_PREVIEW Inv)
    as [service [w1 [R [_ [_ [_ [Again _]]]]]]].
  exists service, w1. split; [exact R|].
  destruct (Again []) as [w2 [E [_ G]]].
  injection E as <-. exact G.
Defined.

Lemma batch_results_in_order_witness :
  let w := examplePage true IDLE in
  let news := calls (snd (App.handleGenerate studio App.quietly w)) in
  React.selectedFile (react w) = Some "product.png" /\
  Forall (fun c => App.threw c = false) news /\
  map GeneratedImage.vibe (React.generatedImages (react (snd (App.handleGenerate studio App.quietly w))))
    = ["Sunny Kitchen"; "Rustic Outdoor"; "Minimalist Studio"] /\
  exists items,
    React.generatedImages (react (snd (App.handleGenerate studio App.quietly w)))
      = (rev items ++ React.generatedImages (react w))%list /\
    map GeneratedImage.vibe items
      = map ScenarioPreset.name
          (App.resolve (App.displayPresets (react w)) (React.selectedPresetIds (react w))) /\
    map GeneratedImage.prompt items = App.imagePrompts news.
Proof.
  cbv zeta.
  assert (Forall (fun c => App.threw c = false)
            (calls (snd (App.handleGenerate studio App.quietly (examplePage true IDLE))))) as Hall.
  { vm_compute. repeat constructor. }
  split; [reflexivity|]. split; [exact Hall|]. split; [vm_compute; reflexivity|].
  exact (batch_results_in_order studio App.quietly quietly_aside
           (examplePage true IDLE) "product.png"
           (calls (snd (App.handleGenerate studio App.quietly (examplePage true IDLE))))
           eq_refl eq_refl eq_refl Hall).
Defined.

Lemma batch_failure_stops_witness :
  let w := examplePage false IDLE in
  let news := calls (snd (App.handleGenerate (flaky 3) App.quietly w)) in
  let failing_call :=
    Build_CallRecord GENERATING_IMAGE 0
      (CallGenerateProductScene "data:image/png;base64,QUJD" "Detailed prompt number 2"
         GEMINI_3_PRO_IMAGE_PREVIEW
         (Some (ImageGenerationOptions.make (Some "High quality, photorealistic, 8k"))))
      (Throw (Error "Failed to generate image: Failed to fetch")) in
  In failing_call news /\
  App.threw failing_call = true /\
  map GeneratedImage.vibe (React.generatedImages (react (snd (App.handleGenerate (flaky 3) App.quietly w))))
    = ["Minimalist Studio"] /\
  App.expandedBases news
    = map ScenarioPreset.description (firstn 2 examplePresets) /\
  React.processingState (react (snd (App.handleGenerate (flaky 3) App.quietly w)))
    = ProcessingState.make ERROR App.ERROR_MESSAGE.
Proof.
  cbv zeta.
  assert (In (Build_CallRecord GENERATING_IMAGE 0
                (CallGenerateProductScene "data:image/png;base64,QUJD"
                   "Detailed prompt number 2" GEMINI_3_PRO_IMAGE_PREVIEW
                   (Some (ImageGenerationOptions.make (Some "High quality, photorealistic, 8k"))))
                (Throw (Error "Failed to generate image: Failed to fetch")))
             (calls (snd (App.handleGenerate (flaky 3) App.quietly (examplePage false IDLE))))) as Hin.
  { vm_compute. auto 10. }
  split; [exact Hin|]. split; [reflexivity|].
  split; [vm_compute; reflexivity|]. split; [vm_compute; reflexivity|].
  refine (proj1 (batch_failure_stops (flaky 3) App.quietly quietly_aside
                   (examplePage false IDLE) "product.png"
                   (calls (snd (App.handleGenerate (flaky 3) App.quietly (examplePage false IDLE))))
                   _ eq_refl eq_refl eq_refl Hin eq_refl _)).
  intros f. discriminate.
Defined.

(** C6 fails on the code.  A first batch ends and leaves its timer
    pending.  A second batch is started before the timer fires; while its
    first call is pending the timer fires, the step is back to IDLE, and
    a click on Generate is not blocked: the calls of a third batch are
    made while the call of the second is still pending, and its result
    is added.  Without the timer the same click is blocked. *)
Lemma stale_timer_unblocks_generate :
  let first := snd (App.clickGenerate studio App.quietly firstVisit) in
  let click := App.clickGenerate studio App.quietly in
  let second := snd (App.clickGenerate studio (during 2 [App.timerFires; click]) first) in
  let blocked := snd (App.clickGenerate studio (during 2 [click]) first) in
  ProcessingState.step (React.processingState (react first)) = COMPLETED /\
  timers first = [3000] /\
  map (fun c => (shown c, beside c)) (calls first)
    = [(EXPANDING_PROMPT, 0); (GENERATING_IMAGE, 0)] /\
  map (fun c => (shown c, beside c)) (skipn 2 (calls second))
    = [(EXPANDING_PROMPT, 1); (GENERATING_IMAGE, 1);
       (EXPANDING_PROMPT, 0); (GENERATING_IMAGE, 0)] /\
  List.length (fetches second) = 6 /\
  List.length (React.generatedImages (react second)) = 3 /\
  map (fun c => (shown c, beside c)) (skipn 2 (calls blocked))
    = [(EXPANDING_PROMPT, 0); (GENERATING_IMAGE, 0)] /\
  List.length (React.generatedImages (react blocked)) = 2.
Proof. cbv zeta. repeat split; vm_compute; reflexivity. Qed.

